(** * CrateHistorian: ingestion and query paths of
      services/core/CrateHistorian/crate_historian/historian.py

    The historian object, the storage service it talks to and the Python
    control flow (exceptions, [try]/[except]/[finally], early [return]) are
    embedded as explicit state passing.  Library calls whose code is not part
    of the historian (md5, timestamp formatting, JSON, [int]/[float]/[str],
    the SQL engine's evaluation of SELECT) are collected in a [Platform]
    record; every general theorem holds for any platform. *)

From Stdlib Require Import ZArith List String Ascii Bool Lia.
From Stdlib Require QArith.QArith_base DecimalString.
From stdpp Require Import base gmap strings list fin_maps.

Local Open Scope string_scope.
Local Open Scope Z_scope.

(** ** Python values *)

#[warnings="-register-all"] Inductive pyval :=
| PNone
| PBool (b : bool)
| PInt (z : Z)
| PFloat (q : QArith_base.Q)
| PStr (s : string)
| PDatetime (t : Z)
| PDict (d : list (string * pyval)).

(** A dict with string keys, read by first match. *)
Abbreviation pydict := (list (string * pyval)).

(** [d.get(k)]: [None] when the key is missing (Python's [None] object);
    a key bound to the [None] object reads the same. *)
Fixpoint dict_get (d : pydict) (k : string) : option pyval :=
  match d with
  | [] => None
  | (k', v) :: d' => if String.eqb k' k then Some v else dict_get d' k
  end.

(** [o is None] for the result of a [.get]. *)
Definition is_None (o : option pyval) : bool :=
  match o with
  | None | Some PNone => true
  | Some _ => false
  end.

(** [v == 'literal'] for a string literal. *)
Definition py_eq_str (v : pyval) (s : string) : bool :=
  match v with
  | PStr t => String.eqb t s
  | _ => false
  end.

Inductive exn :=
| ConnectionError
| ProgrammingError
| UnboundLocalError
| TypeError
| ValueError
| AttributeError.

Inductive outcome (A : Type) :=
| Ret (a : A)
| Raise (e : exn).
Arguments Ret {A} a.
Arguments Raise {A} e.

(** ** Strings *)

Definition lower_char (c : ascii) : ascii :=
  let n := nat_of_ascii c in
  if ((65 <=? n)%nat && (n <=? 90)%nat)%bool then ascii_of_nat (n + 32) else c.

(** [s.lower()] on a byte string: the ASCII capitals are folded. *)
Fixpoint lower (s : string) : string :=
  match s with
  | EmptyString => EmptyString
  | String c r => String (lower_char c) (lower r)
  end.

(** [s.split('/')[0]] *)
Fixpoint split_head (s : string) : string :=
  match s with
  | EmptyString => EmptyString
  | String c r => if Ascii.eqb c "/"%char then EmptyString
                  else String c (split_head r)
  end.

(** [s[n:]] *)
Fixpoint drop_prefix (n : nat) (s : string) : string :=
  match n, s with
  | O, _ => s
  | S _, EmptyString => EmptyString
  | S k, String _ r => drop_prefix k r
  end.

(** [x in (a, b, ...)] on strings *)
Definition str_in (x : string) (l : list string) : bool :=
  existsb (String.eqb x) l.

(** ["{}".format(int(z))] *)
Definition format_int (z : Z) : string :=
  DecimalString.NilZero.string_of_int (Z.to_int z).

(** Two names that differ only by letter case: same length, and at every
    position the same character up to case. *)
Fixpoint same_ignoring_case (a b : string) : bool :=
  match a, b with
  | EmptyString, EmptyString => true
  | String x a', String y b' =>
      Ascii.eqb (lower_char x) (lower_char y) && same_ignoring_case a' b'
  | _, _ => false
  end.

(** ** Storage service *)

Abbreviation datetime := Z.

Record data_row := {
  row_topic_id : string;
  row_ts : string;
  row_result : pyval }.

Record select_request := {
  sel_table : string;
  sel_where : string;
  sel_order_by : string;
  sel_limit : string;
  sel_offset : string;
  sel_values : list pyval }.

(** The statements the historian sends through [cursor.execute], with their
    parameter tuples. *)
Inductive statement :=
| InsertTopic (id name : string)
    (* INSERT INTO topic(id, name) VALUES(?,?)
       ON DUPLICATE KEY UPDATE name=name *)
| UpdateTopicName (name id : string)
    (* UPDATE topic set name=? WHERE id=? *)
| InsertData (table topic_id ts : string) (data data' : pyval)
    (* INSERT INTO {} (topic_id, ts, result) VALUES(?, ?, ?)
       ON DUPLICATE KEY UPDATE result=result
       with the four parameters (topic_id, ts_formatted, data, data) *)
| InsertMeta (topic_id meta_data : string)
    (* INSERT INTO meta(topic_id, meta_data) VALUES(?,?)
       ON DUPLICATE KEY UPDATE meta_data=meta_data *)
| SelectTopics
    (* SELECT _id, name, lower(name) AS lower_name FROM topic *)
| SelectMeta
    (* SELECT topic_id, meta_data FROM meta *)
| SelectData (q : select_request).
    (* SELECT topic_id, ts, result FROM <table>
       {where} {order_by} {limit} {offset} *)

Inductive resultset :=
| NoRows
| TopicRows (l : list (string * string * string))
| MetaRows (l : list (string * string))
| DataRows (l : list data_row).

(** Modelled from the spec: the tables declared by [create_schema]
    (volttron.platform.dbutils.cratedriver), whose code is not part of the
    historian module: [topic(id, name)] keyed by [id],
    [meta(topic_id, meta_data)] keyed by [topic_id], and one table per
    category with columns [(topic_id, ts, result)] keyed by
    [(topic_id, ts)].  Tables are kept as row lists, so that the absence of
    duplicate keys is a property to prove and not one of the type. *)
Record database := {
  tbl_topic : list (string * string);
  tbl_meta : list (string * string);
  tbl_data : gmap string (list data_row) }.

Definition categories : list string :=
  ["analysis"; "device"; "record"; "datalogger"].

Record Platform := {
  md5_hexdigest : string -> string;
      (* hashlib.md5(s).hexdigest() *)
  format_timestamp : datetime -> string;
      (* utils.format_timestamp *)
  parse_timestamp_string : string -> option datetime;
      (* utils.parse_timestamp_string; None: the call raises ValueError *)
  isoformat : datetime -> string;
      (* datetime.isoformat('T') *)
  py_int : pyval -> outcome pyval;
  py_float : pyval -> outcome pyval;
  py_str : pyval -> string;
  dumps : pydict -> string;
      (* jsonapi.dumps *)
  loads : string -> outcome pydict;
      (* jsonapi.loads *)
  run_select : database -> select_request -> outcome (list data_row)
      (* the SQL engine on the SELECT text built by query_historian *)
}.

(** ** The database engine on the statements above *)

Definition key_taken (id : string) (rows : list (string * string)) : bool :=
  existsb (fun r => String.eqb (fst r) id) rows.

(** [INSERT ... ON DUPLICATE KEY UPDATE col=col] on a two-column table keyed
    by its first column: a row whose key is taken is assigned its own
    column value. *)
Definition insert_or_keep (k v : string) (rows : list (string * string))
  : list (string * string) :=
  if key_taken k rows
  then map (fun r => if String.eqb (fst r) k then (fst r, snd r) else r) rows
  else (rows ++ [(k, v)])%list.

Definition update_name (name id : string) (rows : list (string * string))
  : list (string * string) :=
  map (fun r => if String.eqb (fst r) id then (fst r, name) else r) rows.

Definition same_key (id ts : string) (r : data_row) : bool :=
  String.eqb (row_topic_id r) id && String.eqb (row_ts r) ts.

(** The data insert binds its three placeholders to the first three
    parameters; on a taken [(topic_id, ts)] key the row's [result] is
    assigned to itself. *)
Definition insert_data_row (id ts : string) (v : pyval) (rows : list data_row)
  : list data_row :=
  if existsb (same_key id ts) rows
  then map (fun r => if same_key id ts r
                     then {| row_topic_id := row_topic_id r;
                             row_ts := row_ts r;
                             row_result := row_result r |}
                     else r) rows
  else (rows ++ [{| row_topic_id := id; row_ts := ts; row_result := v |}])%list.

Definition db_execute (P : Platform) (d : database) (q : statement)
  : outcome (database * resultset) :=
  match q with
  | InsertTopic id name =>
      Ret ({| tbl_topic := insert_or_keep id name (tbl_topic d);
              tbl_meta := tbl_meta d; tbl_data := tbl_data d |}, NoRows)
  | UpdateTopicName name id =>
      Ret ({| tbl_topic := update_name name id (tbl_topic d);
              tbl_meta := tbl_meta d; tbl_data := tbl_data d |}, NoRows)
  | InsertData table id ts v _ =>
      match tbl_data d !! table with
      | None => Raise ProgrammingError
      | Some rows =>
          Ret ({| tbl_topic := tbl_topic d; tbl_meta := tbl_meta d;
                  tbl_data := <[table := insert_data_row id ts v rows]>
                                (tbl_data d) |}, NoRows)
      end
  | InsertMeta id md =>
      Ret ({| tbl_topic := tbl_topic d;
              tbl_meta := insert_or_keep id md (tbl_meta d);
              tbl_data := tbl_data d |}, NoRows)
  | SelectTopics =>
      Ret (d, TopicRows (map (fun r => (fst r, snd r, lower (snd r)))
                             (tbl_topic d)))
  | SelectMeta => Ret (d, MetaRows (tbl_meta d))
  | SelectData req =>
      match run_select P d req with
      | Ret rows => Ret (d, DataRows rows)
      | Raise e => Raise e
      end
  end.

(** Modelled from the spec: [create_schema], whose code is not part of the
    historian module, makes sure the category tables exist (the topic and
    meta tables are always present in [database]). *)
Definition create_schema (d : database) : database :=
  {| tbl_topic := tbl_topic d; tbl_meta := tbl_meta d;
     tbl_data := foldr (fun c m => match m !! c with
                                   | Some _ => m
                                   | None => <[c := []]> m
                                   end) (tbl_data d) categories |}.

(** ** The historian object and its surroundings *)

Record historian := {
  _connection : option nat;
  _topic_id_map : gmap string string;
  _topic_name_map : gmap string string;
  _topic_meta : gmap string pydict }.

Inductive event :=
| EConnect (k : nat)
| ECursor (c : nat)
| EExecute (c : nat) (q : statement)
| EClose (c : nat)
| EReportAllHandled.

(** What lies outside the object: the database, whether the service will be
    reachable at each coming network call ([true]: the call raises
    ConnectionError; past the end of the list the service is reachable), the
    clock, the cursors handed out and still open, and the calls made so far,
    most recent first. *)
Record world := {
  db : database;
  outages : list bool;
  clock : datetime;
  next_conn : nat;
  next_cursor : nat;
  open_cursors : list nat;
  trace : list event;
  acks : nat }.

Record state := { self : historian; env : world }.

Definition M (A : Type) : Type := state -> outcome A * state.

Definition ret {A} (a : A) : M A := fun st => (Ret a, st).
Definition raise {A} (e : exn) : M A := fun st => (Raise e, st).
Definition bind {A B} (m : M A) (k : A -> M B) : M B :=
  fun st => match m st with
            | (Ret a, st') => k a st'
            | (Raise e, st') => (Raise e, st')
            end.

Notation "'let*' x ':=' m 'in' k" := (bind m (fun x => k))
  (at level 10, x name, m at level 100, k at level 200).
Notation "m ;;; k" := (bind m (fun _ => k))
  (at level 100, right associativity).

Definition lift {A} (o : outcome A) : M A := fun st => (o, st).

Definition with_self (f : historian -> historian) : M unit :=
  fun st => (Ret tt, {| self := f (self st); env := env st |}).

Definition set_connection (c : option nat) (h : historian) : historian :=
  {| _connection := c; _topic_id_map := _topic_id_map h;
     _topic_name_map := _topic_name_map h; _topic_meta := _topic_meta h |}.

Definition set_topic_id (k v : string) (h : historian) : historian :=
  {| _connection := _connection h;
     _topic_id_map := <[k := v]> (_topic_id_map h);
     _topic_name_map := _topic_name_map h; _topic_meta := _topic_meta h |}.

Definition set_topic_name (k v : string) (h : historian) : historian :=
  {| _connection := _connection h; _topic_id_map := _topic_id_map h;
     _topic_name_map := <[k := v]> (_topic_name_map h);
     _topic_meta := _topic_meta h |}.

Definition set_topic_meta (k : string) (v : pydict) (h : historian)
  : historian :=
  {| _connection := _connection h; _topic_id_map := _topic_id_map h;
     _topic_name_map := _topic_name_map h;
     _topic_meta := <[k := v]> (_topic_meta h) |}.

(** One network call: consumes the next reachability flag. *)
Definition network : M unit :=
  fun st =>
    let w := env st in
    match outages w with
    | [] => (Ret tt, st)
    | b :: rest =>
        let w' := {| db := db w; outages := rest; clock := clock w;
                     next_conn := next_conn w; next_cursor := next_cursor w;
                     open_cursors := open_cursors w; trace := trace w;
                     acks := acks w |} in
        (if b then Raise ConnectionError else Ret tt,
         {| self := self st; env := w' |})
    end.

(** [client.connect(host, error_trace=True)] *)
Definition client_connect : M nat :=
  network ;;;
  fun st =>
    let w := env st in
    let k := next_conn w in
    (Ret k,
     {| self := self st;
        env := {| db := db w; outages := outages w; clock := clock w;
                  next_conn := S k; next_cursor := next_cursor w;
                  open_cursors := open_cursors w;
                  trace := EConnect k :: trace w; acks := acks w |} |}).

(** [conn.cursor()] *)
Definition conn_cursor (conn : nat) : M nat :=
  fun st =>
    let w := env st in
    let c := next_cursor w in
    (Ret c,
     {| self := self st;
        env := {| db := db w; outages := outages w; clock := clock w;
                  next_conn := next_conn w; next_cursor := S c;
                  open_cursors := c :: open_cursors w;
                  trace := ECursor c :: trace w; acks := acks w |} |}).

(** [cursor.close()] *)
Definition cursor_close (c : nat) : M unit :=
  fun st =>
    let w := env st in
    (Ret tt,
     {| self := self st;
        env := {| db := db w; outages := outages w; clock := clock w;
                  next_conn := next_conn w; next_cursor := next_cursor w;
                  open_cursors := filter (fun c' => c' <> c) (open_cursors w);
                  trace := EClose c :: trace w; acks := acks w |} |}).

(** [cursor.execute(sql, params)], returning the rows that [fetchall]
    hands out.  A statement that reaches the service is recorded in the
    trace, whether the engine then accepts it or not. *)
Definition cursor_execute (P : Platform) (c : nat) (q : statement)
  : M resultset :=
  network ;;;
  fun st =>
    let w := env st in
    let w' d := {| db := d; outages := outages w; clock := clock w;
                   next_conn := next_conn w; next_cursor := next_cursor w;
                   open_cursors := open_cursors w;
                   trace := EExecute c q :: trace w; acks := acks w |} in
    match db_execute P (db w) q with
    | Ret (d, rs) => (Ret rs, {| self := self st; env := w' d |})
    | Raise e => (Raise e, {| self := self st; env := w' (db w) |})
    end.

(** Modelled from the spec: [report_all_handled] of BaseHistorian, whose code
    is not part of the historian module, reports to the upstream delivery
    collaborator that all points of the batch were handled. *)
Definition report_all_handled : M unit :=
  fun st =>
    let w := env st in
    (Ret tt,
     {| self := self st;
        env := {| db := db w; outages := outages w; clock := clock w;
                  next_conn := next_conn w; next_cursor := next_cursor w;
                  open_cursors := open_cursors w;
                  trace := EReportAllHandled :: trace w;
                  acks := S (acks w) |} |}).

Definition get_self : M historian := fun st => (Ret (self st), st).

(** [utils.get_aware_utc_now()] *)
Definition get_aware_utc_now : M datetime := fun st => (Ret (clock (env st)), st).

(** [for x in l: body] *)
Fixpoint for_each {A} (l : list A) (body : A -> M unit) : M unit :=
  match l with
  | [] => ret tt
  | x :: l' => body x ;;; for_each l' body
  end.

(** [l.append(a, ...)]: [list.append] takes exactly one argument. *)
Definition list_append (l : list pyval) (args : list pyval)
  : outcome (list pyval) :=
  match args with
  | [a] => Ret (l ++ [a])%list
  | _ => Raise TypeError
  end.

(** ** CrateHistorian *)

(** [__init__] *)
Definition init_historian : historian :=
  {| _connection := None; _topic_id_map := ∅; _topic_name_map := ∅;
     _topic_meta := ∅ |}.

Definition get_connection : M nat :=
  let* h := get_self in
  match _connection h with
  | None =>
      let* c := client_connect in
      with_self (set_connection (Some c)) ;;;
      ret c
  | Some c => ret c
  end.

(** One element of [to_publish_list]. *)
Record point := {
  timestamp : datetime;
  source : string;
  topic : string;
  value : pyval;
  meta : pydict }.

Definition insert_data (P : Platform) (cursor : nat)
    (table_name topic_id : string) (ts : datetime) (data : pyval) : M unit :=
  let ts_formatted := format_timestamp P ts in
  cursor_execute P cursor
    (InsertData table_name topic_id ts_formatted data data) ;;;
  ret tt.

(** The category a point is stored under. *)
Definition table_of (source : string) : string :=
  let source := if String.eqb source "scrape" then "device" else source in
  let source := if String.eqb source "log" then "datalogger" else source in
  source.

(** The value coercion driven by [meta.get('type', None)]. *)
Definition coerce (P : Platform) (meta : pydict) (value : pyval)
  : outcome pyval :=
  let meta_type := dict_get meta "type" in
  if negb (is_None meta_type) then
    if py_eq_str (default PNone meta_type) "integer" then py_int P value
    else if py_eq_str (default PNone meta_type) "float" then py_float P value
    else Ret value
  else Ret value.

Definition topic_id_of (P : Platform) (topic : string) : string :=
  let topic_lower := lower topic in
  md5_hexdigest P topic_lower.

(** The test guarding the metadata write:
    [old_meta.get(topic_id) is None or
     str(old_meta.get(topic_id)) != str(meta)]. *)
Definition meta_differs (P : Platform) (old_meta : pydict)
    (topic_id : string) (meta : pydict) : bool :=
  is_None (dict_get old_meta topic_id)
  || negb (String.eqb (py_str P (default PNone (dict_get old_meta topic_id)))
                      (py_str P (PDict meta))).

(** The body of the loop over [to_publish_list]. *)
Definition publish_point (P : Platform) (cursor : nat) (x : point) : M unit :=
  let ts := timestamp x in
  let source := table_of (source x) in
  let topic := topic x in
  let meta := meta x in
  let* value := lift (coerce P meta (value x)) in
  let topic_lower := lower topic in
  let topic_id := topic_id_of P topic in
  let* h := get_self in
  let db_topic_name := _topic_name_map h !! topic_lower in
  match db_topic_name with
  | None =>
      cursor_execute P cursor (InsertTopic topic_id topic) ;;;
      with_self (set_topic_name topic_lower topic)
  | Some name =>
      if negb (String.eqb name topic) then
        cursor_execute P cursor (UpdateTopicName topic topic_id) ;;;
        with_self (set_topic_name topic_lower topic)
      else ret tt
  end ;;;
  insert_data P cursor source topic_id ts value ;;;
  let* h := get_self in
  let old_meta := default [] (_topic_meta h !! topic_id) in
  if meta_differs P old_meta topic_id meta then
    cursor_execute P cursor (InsertMeta topic_id (dumps P meta)) ;;;
    with_self (set_topic_meta topic_id meta)
  else ret tt.

(** The [try] suite of [publish_to_historian], together with the binding of
    the local variable [cursor] when the suite is left ([None]: the variable
    was never assigned). *)
Definition publish_try (P : Platform) (to_publish_list : list point)
  : state -> outcome unit * option nat * state :=
  fun st =>
    match get_connection st with
    | (Raise e, st1) => (Raise e, None, st1)
    | (Ret conn, st1) =>
        match conn_cursor conn st1 with
        | (Raise e, st2) => (Raise e, None, st2)
        | (Ret cursor, st2) =>
            let '(r, st3) :=
              (for_each to_publish_list (publish_point P cursor) ;;;
               report_all_handled) st2 in
            (r, Some cursor, st3)
        end
    end.

Definition publish_to_historian (P : Platform) (to_publish_list : list point)
  : M unit :=
  fun st =>
    let '(r, cursor, st1) := publish_try P to_publish_list st in
    (* except ConnectionError: self._connection = None *)
    let '(r, st2) :=
      match r with
      | Raise ConnectionError => with_self (set_connection None) st1
      | _ => (r, st1)
      end in
    (* finally: if cursor is not None: cursor.close() *)
    match cursor with
    | None => (Raise UnboundLocalError, st2)
    | Some c =>
        match cursor_close c st2 with
        | (Ret _, st3) => (r, st3)
        | (Raise e, st3) => (Raise e, st3)
        end
    end.

(** The name looked up in [_topic_id_map]: the category prefix and its slash
    are cut off for the analysis and device categories,
    [topic[len(table_name)+1:]]. *)
Definition strip_category (table_name topic : string) : string :=
  if str_in table_name ["analysis"; "device"]
  then drop_prefix (String.length table_name + 1) topic else topic.

Record query_result := {
  values : list (string * pyval);
  metadata : pydict }.

Definition query_historian (P : Platform) (topic : string)
    (start end_ : option string) (agg_type agg_period : option string)
    (skip : Z) (count : option Z) (order : string) : M query_result :=
  let table_name := split_head topic in
  let results : list (string * pyval) := [] in
  if negb (str_in table_name categories) then
    ret {| values := results; metadata := [] |}
  else
  let topic := strip_category table_name topic in
  let* h := get_self in
  match _topic_id_map h !! topic with
  | None => ret {| values := results; metadata := [] |}
  | Some topic_id =>
  let* start_time :=
    match start with
    | Some s => match parse_timestamp_string P s with
                | Some t => ret t
                | None => raise ValueError
                end
    | None => get_aware_utc_now
    end in
  let start_time := isoformat P start_time in
  let* end_time :=
    match end_ with
    | Some e => match parse_timestamp_string P e with
                | Some t => ret (Some t)
                | None => raise ValueError
                end
    | None => ret None
    end in
  (* args = dict(where='', order_by='', limit=20, offset='') *)
  let where_ := "" in
  let limit := format_int 20 in
  let offset := "" in
  let values : list pyval := [] in
  let where_ := " WHERE topic_id = ?" in
  let* values := lift (list_append values [PStr topic_id]) in
  let* bounded :=
    match start, end_ with
    | Some _, Some _ =>
        let where_ := " AND ts BETWEEN ? and ?" in
        let* values :=
          lift (list_append values
                  [PStr start_time;
                   match end_time with Some t => PDatetime t | None => PNone
                   end]) in
        ret (where_, values)
    | _, _ => ret (where_, values)
    end in
  let where_ := fst bounded in
  let values := snd bounded in
  let order_by :=
    if String.eqb order "FIRST_TO_LAST" then " ORDER BY ts ASC"
    else " ORDER BY ts DESC" in
  let offset := if 0 <? skip then " SKIP " ++ format_int skip else offset in
  (* None > 0 is False *)
  let limit :=
    match count with
    | Some c => if 0 <? c then " LIMIT " ++ format_int c else limit
    | None => limit
    end in
  let real_query :=
    {| sel_table := table_name; sel_where := where_;
       sel_order_by := order_by; sel_limit := limit; sel_offset := offset;
       sel_values := values |} in
  let* conn := get_connection in
  let* cursor := conn_cursor conn in
  let* rows := cursor_execute P cursor (SelectData real_query) in
  let results :=
    match rows with
    | DataRows l => map (fun row => (row_ts row, row_result row)) l
    | _ => []
    end in
  ret {| values := results; metadata := [] |}
  end.

Definition _load_topic_map (P : Platform) : M unit :=
  let* h := get_self in
  match _connection h with
  | None => raise AttributeError
  | Some conn =>
      let* cursor := conn_cursor conn in
      let* rows := cursor_execute P cursor SelectTopics in
      for_each (match rows with TopicRows l => l | _ => [] end)
        (fun row =>
           let '(r0, r1, r2) := row in
           with_self (set_topic_id r2 r0) ;;;
           with_self (set_topic_name r2 r1)) ;;;
      cursor_close cursor
  end.

Definition _load_meta_map (P : Platform) : M unit :=
  let* h := get_self in
  match _connection h with
  | None => raise AttributeError
  | Some conn =>
      let* cursor := conn_cursor conn in
      let* rows := cursor_execute P cursor SelectMeta in
      for_each (match rows with MetaRows l => l | _ => [] end)
        (fun row =>
           let* m := lift (loads P (snd row)) in
           with_self (set_topic_meta (fst row) m)) ;;;
      cursor_close cursor
  end.

(** [create_schema(self._connection)] as a call to the service. *)
Definition run_create_schema : M unit :=
  network ;;;
  fun st =>
    let w := env st in
    (Ret tt,
     {| self := self st;
        env := {| db := create_schema (db w); outages := outages w;
                  clock := clock w; next_conn := next_conn w;
                  next_cursor := next_cursor w;
                  open_cursors := open_cursors w; trace := trace w;
                  acks := acks w |} |}).

Definition historian_setup (P : Platform) : M unit :=
  let* c := get_connection in
  with_self (set_connection (Some c)) ;;;
  run_create_schema ;;;
  _load_topic_map P ;;;
  _load_meta_map P.

(** ** A small platform, to run the historian on concrete inputs

    Stand-ins for the library calls: the digest tags the name, timestamps
    are seconds printed in decimal, and the SELECT engine understands the
    clauses [query_historian] can produce. *)
Module Demo.

Definition digest (s : string) : string := "md5:" ++ s.

Definition parse_seconds (s : string) : option datetime :=
  match DecimalString.NilZero.int_of_string s with
  | Some i => Some (Z.of_int i)
  | None => None
  end.

Definition to_int (v : pyval) : outcome pyval :=
  match v with
  | PInt z => Ret (PInt z)
  | PBool b => Ret (PInt (if b then 1 else 0))
  | PFloat q => Ret (PInt (Z.quot (QArith_base.Qnum q)
                                  (Z.pos (QArith_base.Qden q))))
  | PStr s => match parse_seconds s with
              | Some z => Ret (PInt z)
              | None => Raise ValueError
              end
  | _ => Raise TypeError
  end.

Definition to_float (v : pyval) : outcome pyval :=
  match v with
  | PInt z => Ret (PFloat (QArith_base.inject_Z z))
  | PBool b => Ret (PFloat (QArith_base.inject_Z (if b then 1 else 0)))
  | PFloat q => Ret (PFloat q)
  | PStr s => match parse_seconds s with
              | Some z => Ret (PFloat (QArith_base.inject_Z z))
              | None => Raise ValueError
              end
  | _ => Raise TypeError
  end.

Definition show_atom (v : pyval) : string :=
  match v with
  | PNone => "None"
  | PBool b => if b then "True" else "False"
  | PInt z => format_int z
  | PFloat q => format_int (QArith_base.Qnum q) ++ "/"
                ++ format_int (Z.pos (QArith_base.Qden q))
  | PStr s => s
  | PDatetime t => format_int t
  | PDict _ => "{...}"
  end.

Definition show (v : pyval) : string :=
  match v with
  | PDict d =>
      "{" ++ fold_right (fun kv acc =>
                           fst kv ++ ": " ++ show_atom (snd kv) ++ ", " ++ acc)
                        "}" d
  | _ => show_atom v
  end.

Fixpoint insert_sorted (le : string -> string -> bool) (r : data_row)
    (l : list data_row) : list data_row :=
  match l with
  | [] => [r]
  | r' :: l' => if le (row_ts r) (row_ts r') then r :: l
                else r' :: insert_sorted le r l'
  end.

Definition sort_rows (le : string -> string -> bool) (l : list data_row)
  : list data_row :=
  fold_right (insert_sorted le) [] l.

Definition select (d : database) (q : select_request)
  : outcome (list data_row) :=
  match tbl_data d !! sel_table q with
  | None => Raise ProgrammingError
  | Some rows =>
      match sel_values q with
      | [PStr id] =>
          if negb (String.eqb (sel_where q) " WHERE topic_id = ?")
          then Raise ProgrammingError
          else if negb (String.eqb (sel_offset q) "")
          then Raise ProgrammingError
          else
            let hits :=
              List.filter (fun r => String.eqb (row_topic_id r) id) rows in
            let sorted :=
              if String.eqb (sel_order_by q) " ORDER BY ts ASC"
              then sort_rows String.leb hits
              else sort_rows (fun a b => String.leb b a) hits in
            match DecimalString.NilZero.uint_of_string
                    (drop_prefix 7 (sel_limit q)) with
            | Some n =>
                if String.eqb (sel_limit q)
                     (" LIMIT " ++ drop_prefix 7 (sel_limit q))
                then Ret (firstn (Nat.of_uint n) sorted)
                else Raise ProgrammingError
            | None => Raise ProgrammingError
            end
      | _ => Raise ProgrammingError
      end
  end.

Definition platform : Platform :=
  {| md5_hexdigest := digest;
     format_timestamp := format_int;
     parse_timestamp_string := parse_seconds;
     isoformat := format_int;
     py_int := to_int;
     py_float := to_float;
     py_str := show;
     dumps := fun d => show (PDict d);
     loads := fun s => if String.eqb s "{}" then Ret [] else Raise ValueError;
     run_select := select |}.

Definition empty_db : database :=
  {| tbl_topic := []; tbl_meta := []; tbl_data := ∅ |}.

(** A freshly started service and process: nothing stored, the service
    reachable, no connection made yet. *)
Definition fresh (now : datetime) : state :=
  {| self := init_historian;
     env := {| db := empty_db; outages := []; clock := now; next_conn := O;
               next_cursor := O; open_cursors := []; trace := [];
               acks := O |} |}.

(** The same, with the service unreachable at the listed coming calls. *)
Definition fresh_with_outages (now : datetime) (o : list bool) : state :=
  {| self := init_historian;
     env := {| db := empty_db; outages := o; clock := now; next_conn := O;
               next_cursor := O; open_cursors := []; trace := [];
               acks := O |} |}.

(** The point of the specification's scenario. *)
Definition ahu1_temp (T : datetime) : point :=
  {| timestamp := T; source := "device"; topic := "building/ahu1/temp";
     value := PInt 72; meta := [("type", PStr "float")] |}.

(** A process that was started on a service already holding the scenario's
    point: the topic and its metadata were loaded into the maps. *)
Definition started (now : datetime) : state :=
  let name := "building/ahu1/temp" in
  let id := digest name in
  let m := [("type", PStr "float")] in
  {| self := {| _connection := Some O;
                _topic_id_map := {[ name := id ]};
                _topic_name_map := {[ name := name ]};
                _topic_meta := {[ id := m ]} |};
     env := {| db := {| tbl_topic := [(id, name)];
                        tbl_meta := [(id, show (PDict m))];
                        tbl_data :=
                          {[ "device" :=
                               [{| row_topic_id := id; row_ts := "100";
                                   row_result :=
                                     PFloat (QArith_base.inject_Z 72) |}] ]}
                     |};
               outages := []; clock := now; next_conn := 1%nat;
               next_cursor := O; open_cursors := []; trace := [];
               acks := O |} |}.

End Demo.

(** ** Notions used in the statements below *)

(** Rows of a category table stored under the key [(id, ts)]. *)
Definition key_count (id ts : string) (rows : list data_row) : nat :=
  length (List.filter (same_key id ts) rows).

(** The value stored under [(id, ts)], if any. *)
Definition stored_value (id ts : string) (rows : list data_row)
  : option pyval :=
  row_result <$> List.find (same_key id ts) rows.

(** [m] takes every state to an [R]-related one, whether it returns or
    raises. *)
Definition moves {A} (R : state -> state -> Prop) (m : M A) : Prop :=
  forall st, R st (snd (m st)).

Definition same_topic_ids (st st' : state) : Prop :=
  _topic_id_map (self st') = _topic_id_map (self st).

Definition same_acks (st st' : state) : Prop :=
  acks (env st') = acks (env st).

Definition same_cursors (st st' : state) : Prop :=
  open_cursors (env st') = open_cursors (env st)
  /\ next_cursor (env st') = next_cursor (env st).

(** The statement is a write that names the topic id [id]. *)
Definition about_topic (id : string) (q : statement) : Prop :=
  match q with
  | InsertTopic i _ | UpdateTopicName _ i | InsertData _ i _ _ _
  | InsertMeta i _ => i = id
  | SelectTopics | SelectMeta | SelectData _ => False
  end.

(** Between [st] and [st'] only statements satisfying [Q] were sent. *)
Definition sends_only (Q : statement -> Prop) (st st' : state) : Prop :=
  exists evs, trace (env st') = (evs ++ trace (env st))%list
              /\ Forall (fun e => match e with
                                  | EExecute _ q => Q q
                                  | _ => True
                                  end) evs.

(** ** Notions used for the rest of the module *)

(** A relation on databases, read on the states around a call. *)
Definition on_db (R : database -> database -> Prop) (st st' : state) : Prop :=
  R (db (env st)) (db (env st')).

(** Every category table is still there, with its rows first and as they
    were. *)
Definition data_grows (d d' : database) : Prop :=
  forall table rows,
    tbl_data d !! table = Some rows ->
    exists more, tbl_data d' !! table = Some (rows ++ more)%list.

(** No category table has two rows under one [(topic_id, ts)] key. *)
Definition keys_unique (d : database) : Prop :=
  forall table rows id ts,
    tbl_data d !! table = Some rows -> (key_count id ts rows <= 1)%nat.

(** The rows of the meta table are still there, first and as they were, and
    no topic id got a second row. *)
Definition meta_grows (d d' : database) : Prop :=
  (exists more, tbl_meta d' = (tbl_meta d ++ more)%list)
  /\ (NoDup (map fst (tbl_meta d)) -> NoDup (map fst (tbl_meta d'))).

(** The ids of the topic table are still there, in their order, and no id
    got a second row. *)
Definition topic_ids_grow (d d' : database) : Prop :=
  (exists more,
      map fst (tbl_topic d') = (map fst (tbl_topic d) ++ more)%list)
  /\ (NoDup (map fst (tbl_topic d)) -> NoDup (map fst (tbl_topic d'))).

Definition keeps {A} (Inv : A -> Prop) (a a' : A) : Prop := Inv a -> Inv a'.

(** Nothing but the connection, the cursors and the trace differs. *)
Definition read_only (st st' : state) : Prop :=
  db (env st') = db (env st)
  /\ acks (env st') = acks (env st)
  /\ _topic_id_map (self st') = _topic_id_map (self st)
  /\ _topic_name_map (self st') = _topic_name_map (self st)
  /\ _topic_meta (self st') = _topic_meta (self st).

Definition same_connection (st st' : state) : Prop :=
  _connection (self st') = _connection (self st).

(** Every key of the map is in folded form. *)
Definition folded_keys (m : gmap string string) : Prop :=
  forall k, is_Some (m !! k) -> lower k = k.

(** Every entry maps a folded name to a spelling of it. *)
Definition names_fold (m : gmap string string) : Prop :=
  forall k v, m !! k = Some v -> lower v = k.

Fixpoint no_slash (s : string) : bool :=
  match s with
  | EmptyString => true
  | String c r => negb (Ascii.eqb c "/"%char) && no_slash r
  end.

(** The point with its source replaced by the category it is stored
    under. *)
Definition canonical (x : point) : point :=
  {| timestamp := timestamp x; source := table_of (source x);
     topic := topic x; value := value x; meta := meta x |}.

(** The request [query_historian] sends when it does not have both bounds:
    lines 443-462 with the where clause of line 446. *)
Definition scan_request (table_name topic_id : string) (skip : Z)
    (count : option Z) (order : string) : select_request :=
  {| sel_table := table_name;
     sel_where := " WHERE topic_id = ?";
     sel_order_by := if String.eqb order "FIRST_TO_LAST"
                     then " ORDER BY ts ASC" else " ORDER BY ts DESC";
     sel_limit := match count with
                  | Some c => if 0 <? c then " LIMIT " ++ format_int c
                              else format_int 20
                  | None => format_int 20
                  end;
     sel_offset := if 0 <? skip then " SKIP " ++ format_int skip else "";
     sel_values := [PStr topic_id] |}.

(** A start and an end of which at most one is given, and that one a
    well-formed timestamp. *)
Definition one_bound_at_most (P : Platform) (start end_ : option string)
  : Prop :=
  match start, end_ with
  | Some _, Some _ => False
  | Some s, None => is_Some (parse_timestamp_string P s)
  | None, Some e => is_Some (parse_timestamp_string P e)
  | None, None => True
  end.

(** The state [st] with the metadata cache replaced by [cache]. *)
Definition with_meta_cache (cache : gmap string pydict) (st : state)
  : state :=
  {| self := {| _connection := _connection (self st);
                _topic_id_map := _topic_id_map (self st);
                _topic_name_map := _topic_name_map (self st);
                _topic_meta := cache |};
     env := env st |}.

(** The computation [m] does not read the metadata cache and leaves it as it
    is: started with another cache, it ends in the same way. *)
Definition cache_blind {A} (m : M A) : Prop :=
  forall cache st,
    m (with_meta_cache cache st)
    = (fst (m st), with_meta_cache cache (snd (m st))).

(** The point has a row under its key in its category table. *)
Definition stored (P : Platform) (d : database) (x : point) : Prop :=
  exists rows,
    tbl_data d !! table_of (source x) = Some rows
    /\ existsb (same_key (topic_id_of P (topic x))
                         (format_timestamp P (timestamp x))) rows = true.

(** States for running the rest of the module on concrete inputs. *)
Module Sample.

(** The state [st] with the service unreachable at the listed coming
    calls. *)
Definition unreachable (o : list bool) (st : state) : state :=
  {| self := self st;
     env := {| db := db (env st); outages := o; clock := clock (env st);
               next_conn := next_conn (env st);
               next_cursor := next_cursor (env st);
               open_cursors := open_cursors (env st);
               trace := trace (env st); acks := acks (env st) |} |}.

(** The state [st] with the given rows as its meta table. *)
Definition with_meta_rows (rows : list (string * string)) (st : state)
  : state :=
  {| self := self st;
     env := {| db := {| tbl_topic := tbl_topic (db (env st));
                        tbl_meta := rows;
                        tbl_data := tbl_data (db (env st)) |};
               outages := outages (env st); clock := clock (env st);
               next_conn := next_conn (env st);
               next_cursor := next_cursor (env st);
               open_cursors := open_cursors (env st);
               trace := trace (env st); acks := acks (env st) |} |}.

(** A point whose value is no number though its metadata says integer. *)
Definition not_a_number (T : datetime) : point :=
  {| timestamp := T; source := "device"; topic := "building/ahu1/flow";
     value := PStr "n/a"; meta := [("type", PStr "integer")] |}.

End Sample.

(** ** Queries *)

Section Query.
Context (P : Platform).

Lemma query_unresolved st topic start end_ agg_type agg_period skip count
    order :
  str_in (split_head topic) categories = true ->
  _topic_id_map (self st) !! strip_category (split_head topic) topic = None ->
  query_historian P topic start end_ agg_type agg_period skip count order st
  = (Ret {| values := []; metadata := [] |}, st).
Proof.
  intros Hcat Hmap. unfold query_historian.
  rewrite Hcat. cbn [negb]. unfold bind at 1, get_self at 1.
  rewrite Hmap. reflexivity.
Qed.

Lemma query_bad_category st topic start end_ agg_type agg_period skip count
    order :
  str_in (split_head topic) categories = false ->
  query_historian P topic start end_ agg_type agg_period skip count order st
  = (Ret {| values := []; metadata := [] |}, st).
Proof.
  intros Hcat. unfold query_historian. rewrite Hcat. reflexivity.
Qed.

Lemma invalid_topic_gives_empty st topic start end_ agg_type
    agg_period skip count order :
  str_in (split_head topic) categories = false
  \/ _topic_id_map (self st) !! strip_category (split_head topic) topic
     = None ->
  query_historian P topic start end_ agg_type agg_period skip count order st
  = (Ret {| values := []; metadata := [] |}, st).
Proof.
  intros [Hcat | Hmap].
  - by apply query_bad_category.
  - destruct (str_in (split_head topic) categories) eqn:Hcat.
    + by apply query_unresolved.
    + by apply query_bad_category.
Qed.

(** C10: a query whose category prefix is not recognised, or whose remaining
    name is not in the in-memory topic map, returns the empty result
    {values: [], metadata: {}} without raising, and leaves the historian and
    the storage service untouched. *)
Theorem query_invalid_topic_is_empty st topic start end_ agg_type agg_period
    skip count order :
  str_in (split_head topic) categories = false
  \/ _topic_id_map (self st) !! strip_category (split_head topic) topic
     = None ->
  query_historian P topic start end_ agg_type agg_period skip count order st
  = (Ret {| values := []; metadata := [] |}, st).
Proof. apply invalid_topic_gives_empty. Qed.

Lemma query_both_bounds st topic topic_id s e agg_type agg_period skip count
    order :
  str_in (split_head topic) categories = true ->
  _topic_id_map (self st) !! strip_category (split_head topic) topic
  = Some topic_id ->
  query_historian P topic (Some s) (Some e) agg_type agg_period skip count
    order st
  = (Raise match parse_timestamp_string P s, parse_timestamp_string P e with
           | Some _, Some _ => TypeError
           | _, _ => ValueError
           end, st).
Proof.
  intros Hcat Hmap. unfold query_historian.
  rewrite Hcat. cbn [negb]. unfold bind at 1, get_self at 1.
  rewrite Hmap.
  destruct (parse_timestamp_string P s) as [t|]; [|reflexivity].
  destruct (parse_timestamp_string P e) as [t'|]; reflexivity.
Qed.

(** C9 (the code departs from it): for a registered topic, a query with
    [start] equal to [end] never returns: with a well-formed timestamp it
    raises TypeError at [values.append(start_time, end_time)], before any
    statement is sent, whatever the table holds. *)
Theorem query_start_equal_end_raises st topic topic_id s agg_type agg_period
    skip count order :
  str_in (split_head topic) categories = true ->
  _topic_id_map (self st) !! strip_category (split_head topic) topic
  = Some topic_id ->
  query_historian P topic (Some s) (Some s) agg_type agg_period skip count
    order st
  = (Raise match parse_timestamp_string P s with
           | Some _ => TypeError
           | None => ValueError
           end, st).
Proof.
  intros Hcat Hmap.
  rewrite (query_both_bounds _ _ topic_id) by assumption.
  by destruct (parse_timestamp_string P s).
Qed.

Lemma query_start_only_ignored st topic s t agg_type agg_period skip count
    order :
  parse_timestamp_string P s = Some t ->
  query_historian P topic (Some s) None agg_type agg_period skip count order st
  = query_historian P topic None None agg_type agg_period skip count order st.
Proof.
  intros Hs. unfold query_historian.
  destruct (negb (str_in (split_head topic) categories)); [reflexivity|].
  unfold bind, get_self, get_aware_utc_now, ret. cbv beta iota.
  destruct (_topic_id_map (self st) !! _); [|reflexivity].
  rewrite Hs. reflexivity.
Qed.

Lemma query_end_only_ignored st topic e t agg_type agg_period skip count
    order :
  parse_timestamp_string P e = Some t ->
  query_historian P topic None (Some e) agg_type agg_period skip count order st
  = query_historian P topic None None agg_type agg_period skip count order st.
Proof.
  intros He. unfold query_historian.
  destruct (negb (str_in (split_head topic) categories)); [reflexivity|].
  unfold bind, get_self, get_aware_utc_now, ret. cbv beta iota.
  destruct (_topic_id_map (self st) !! _); [|reflexivity].
  rewrite He. reflexivity.
Qed.

(** C6 (the code departs from it): a single bound restricts nothing.  A
    query with only [start], or only [end], sends the same statement and
    returns the same result as the query with no bound at all; the lower
    bound computed from the clock is not part of any statement. *)
Theorem query_single_bound_not_applied st topic s t agg_type agg_period skip
    count order :
  parse_timestamp_string P s = Some t ->
  query_historian P topic (Some s) None agg_type agg_period skip count order st
  = query_historian P topic None None agg_type agg_period skip count order st
  /\ query_historian P topic None (Some s) agg_type agg_period skip count
       order st
     = query_historian P topic None None agg_type agg_period skip count
         order st.
Proof.
  intros Hs. split.
  - by apply query_start_only_ignored with t.
  - by apply query_end_only_ignored with t.
Qed.

Lemma returned_metadata_empty st topic start end_ agg_type agg_period skip
    count order r st' :
  query_historian P topic start end_ agg_type agg_period skip count order st
  = (Ret r, st') ->
  metadata r = [].
Proof.
  unfold query_historian.
  destruct (negb (str_in (split_head topic) categories)).
  { intros [= <- _]. reflexivity. }
  unfold bind at 1, get_self.
  destruct (_topic_id_map (self st) !! _) as [topic_id|].
  2: { intros [= <- _]. reflexivity. }
  unfold bind.
  repeat match goal with
         | |- context [match ?m ?s with _ => _ end] =>
             lazymatch type of s with
             | state => destruct (m s) as [[?|?] ?]; try discriminate
             end
         end.
  intros [= <- _]. reflexivity.
Qed.

Lemma cache_blind_ret {A} (a : A) : cache_blind (ret a).
Proof. intros cache st. reflexivity. Qed.

Lemma cache_blind_raise {A} e : cache_blind (@raise A e).
Proof. intros cache st. reflexivity. Qed.

Lemma cache_blind_lift {A} (o : outcome A) : cache_blind (lift o).
Proof. intros cache st. reflexivity. Qed.

Lemma cache_blind_now : cache_blind get_aware_utc_now.
Proof. intros cache st. reflexivity. Qed.

Lemma cache_blind_bind {A B} (m : M A) (k : A -> M B) :
  cache_blind m -> (forall a, cache_blind (k a)) -> cache_blind (bind m k).
Proof.
  intros Hm Hk cache st. unfold bind. rewrite Hm.
  destruct (m st) as [[a|e] st1]; cbn [fst snd]; [apply Hk | reflexivity].
Qed.

Lemma cache_blind_network : cache_blind network.
Proof.
  intros cache st. unfold network, with_meta_cache. cbn [env self].
  destruct (outages (env st)) as [|b o]; reflexivity.
Qed.

Lemma cache_blind_connect : cache_blind client_connect.
Proof.
  apply cache_blind_bind; [apply cache_blind_network|].
  intros _ cache st. reflexivity.
Qed.

Lemma cache_blind_self {A} (k : historian -> M A) :
  (forall h, cache_blind (k h)) ->
  (forall cache st, k (self (with_meta_cache cache st)) = k (self st)) ->
  cache_blind (bind get_self k).
Proof.
  intros Hk Hself cache st. unfold bind, get_self.
  rewrite Hself. apply Hk.
Qed.

Lemma cache_blind_get_connection : cache_blind get_connection.
Proof.
  apply cache_blind_self; [|reflexivity].
  intros h. destruct (_connection h) as [c|]; [apply cache_blind_ret|].
  apply cache_blind_bind; [apply cache_blind_connect|].
  intros c. apply cache_blind_bind; [|intros _; apply cache_blind_ret].
  intros cache st. reflexivity.
Qed.

Lemma cache_blind_cursor conn : cache_blind (conn_cursor conn).
Proof. intros cache st. reflexivity. Qed.

Lemma cache_blind_execute c q : cache_blind (cursor_execute P c q).
Proof.
  apply cache_blind_bind; [apply cache_blind_network|].
  intros _ cache st. cbv zeta. unfold with_meta_cache at 1. cbn [env self].
  destruct (db_execute P (db (env st)) q) as [[d rs]|e]; reflexivity.
Qed.

(** A query ends the same way whatever the metadata cache holds, and leaves
    the cache as it is. *)
Lemma query_ignores_meta_cache st topic start end_ agg_type agg_period skip
    count order cache :
  query_historian P topic start end_ agg_type agg_period skip count order
    (with_meta_cache cache st)
  = (fst (query_historian P topic start end_ agg_type agg_period skip count
            order st),
     with_meta_cache cache
       (snd (query_historian P topic start end_ agg_type agg_period skip
               count order st))).
Proof.
  revert cache st. unfold query_historian.
  destruct (negb (str_in (split_head topic) categories));
    [apply cache_blind_ret|].
  cbv zeta. apply cache_blind_self; [|reflexivity].
  intros h.
  repeat first
    [ apply cache_blind_ret | apply cache_blind_raise | apply cache_blind_lift
    | apply cache_blind_now | apply cache_blind_get_connection
    | apply cache_blind_cursor | apply cache_blind_execute
    | apply cache_blind_bind; [|intros ?]
    | match goal with
      | |- cache_blind (match ?x with _ => _ end) => destruct x
      end ].
Qed.

(** C8, as the code has it: whenever a query returns, the metadata field of
    the returned mapping is the empty mapping, whatever the metadata cache
    holds for the resolved topic id; and the query does not read the cache:
    with any other content of the cache it ends in the same way, with the
    same result or the same exception, so that metadata missing from the
    cache cannot make it raise. *)
Theorem query_metadata_is_empty st topic start end_ agg_type agg_period skip
    count order cache :
  (forall r st',
      query_historian P topic start end_ agg_type agg_period skip count
        order st = (Ret r, st') ->
      metadata r = [])
  /\ query_historian P topic start end_ agg_type agg_period skip count order
       (with_meta_cache cache st)
     = (fst (query_historian P topic start end_ agg_type agg_period skip
               count order st),
        with_meta_cache cache
          (snd (query_historian P topic start end_ agg_type agg_period skip
                  count order st))).
Proof.
  split.
  - intros r st'. apply returned_metadata_empty.
  - apply query_ignores_meta_cache.
Qed.

End Query.

Lemma query_invalid_topic_is_empty_witness :
  query_historian Demo.platform "bogus/x" None None None None 0 None
    "FIRST_TO_LAST" (Demo.fresh 0)
  = (Ret {| values := []; metadata := [] |}, Demo.fresh 0).
Proof.
  apply (query_invalid_topic_is_empty Demo.platform).
  left. reflexivity.
Defined.

Lemma query_start_equal_end_raises_witness :
  query_historian Demo.platform "device/building/ahu1/temp" (Some "100")
    (Some "100") None None 0 (Some 1%Z) "FIRST_TO_LAST" (Demo.started 200)
  = (Raise TypeError, Demo.started 200).
Proof.
  apply (query_start_equal_end_raises Demo.platform (Demo.started 200)
           "device/building/ahu1/temp" (Demo.digest "building/ahu1/temp")
           "100"); reflexivity.
Defined.

Lemma query_single_bound_not_applied_witness :
  query_historian Demo.platform "device/building/ahu1/temp" (Some "150") None
    None None 0 (Some 1%Z) "FIRST_TO_LAST" (Demo.started 200)
  = query_historian Demo.platform "device/building/ahu1/temp" None None
      None None 0 (Some 1%Z) "FIRST_TO_LAST" (Demo.started 200)
  /\ query_historian Demo.platform "device/building/ahu1/temp" None
       (Some "150") None None 0 (Some 1%Z) "FIRST_TO_LAST" (Demo.started 200)
     = query_historian Demo.platform "device/building/ahu1/temp" None None
         None None 0 (Some 1%Z) "FIRST_TO_LAST" (Demo.started 200).
Proof.
  apply (query_single_bound_not_applied Demo.platform (Demo.started 200)
           "device/building/ahu1/temp" "150" 150).
  reflexivity.
Defined.

(** With the clock at 200 and no bound given, the point stored at 100 is
    returned: the current time is not a lower bound of the scan. *)
Example query_unbounded_returns_past_data :
  fst (query_historian Demo.platform "device/building/ahu1/temp" None None
         None None 0 (Some 1%Z) "FIRST_TO_LAST" (Demo.started 200))
  = Ret {| values := [("100", PFloat (QArith_base.inject_Z 72))];
           metadata := [] |}.
Proof. vm_compute. reflexivity. Qed.

(** Without [count] the text spliced in for the limit is the bare number
    20, which the engine of the demonstration platform rejects. *)
Example query_without_count_is_rejected :
  fst (query_historian Demo.platform "device/building/ahu1/temp" None None
         None None 0 None "FIRST_TO_LAST" (Demo.started 200))
  = Raise ProgrammingError.
Proof. vm_compute. reflexivity. Qed.

Lemma query_metadata_is_empty_witness :
  fst (query_historian Demo.platform "device/building/ahu1/temp" None None
         None None 0 (Some 1%Z) "FIRST_TO_LAST" (Demo.started 200))
  = Ret {| values := [("100", PFloat (QArith_base.inject_Z 72))];
           metadata := [] |}
  /\ metadata {| values := [("100", PFloat (QArith_base.inject_Z 72))];
                 metadata := [] |} = []
  /\ fst (query_historian Demo.platform "device/building/ahu1/temp" None None
            None None 0 (Some 1%Z) "FIRST_TO_LAST"
            (with_meta_cache ∅ (Demo.started 200)))
     = Ret {| values := [("100", PFloat (QArith_base.inject_Z 72))];
              metadata := [] |}.
Proof.
  destruct (query_metadata_is_empty Demo.platform (Demo.started 200)
              "device/building/ahu1/temp" None None None None 0 (Some 1%Z)
              "FIRST_TO_LAST" ∅) as [Hempty Hsame].
  split; [vm_compute; reflexivity|].
  split.
  - apply (Hempty _
             (snd (query_historian Demo.platform "device/building/ahu1/temp"
                     None None None None 0 (Some 1%Z) "FIRST_TO_LAST"
                     (Demo.started 200)))).
    vm_compute. reflexivity.
  - rewrite Hsame. vm_compute. reflexivity.
Defined.

(** C8 as stated fails: a query that resolves a topic whose metadata is
    cached as {type: float} returns an empty metadata mapping. *)
Lemma query_metadata_not_from_cache :
  ~ (forall (P : Platform) st topic start end_ agg_type agg_period skip count
            order r st' topic_id,
        query_historian P topic start end_ agg_type agg_period skip count
          order st = (Ret r, st') ->
        _topic_id_map (self st) !! strip_category (split_head topic) topic
        = Some topic_id ->
        metadata r = default [] (_topic_meta (self st) !! topic_id)).
Proof.
  intros H.
  specialize (H Demo.platform (Demo.started 200) "device/building/ahu1/temp"
                None None None None 0 (Some 1%Z) "FIRST_TO_LAST" _ _
                (Demo.digest "building/ahu1/temp") eq_refl eq_refl).
  vm_compute in H. discriminate H.
Qed.

(** ** Relations kept by every step *)

Section Moves.
Context (R : state -> state -> Prop).
Hypothesis R_refl : forall st, R st st.
Hypothesis R_trans : forall a b c, R a b -> R b c -> R a c.

Lemma moves_ret {A} (a : A) : moves R (ret a).
Proof. intros st. apply R_refl. Qed.

Lemma moves_raise {A} e : moves R (@raise A e).
Proof. intros st. apply R_refl. Qed.

Lemma moves_lift {A} (o : outcome A) : moves R (lift o).
Proof. intros st. apply R_refl. Qed.

Lemma moves_get_self : moves R get_self.
Proof. intros st. apply R_refl. Qed.

Lemma moves_bind {A B} (m : M A) (k : A -> M B) :
  moves R m -> (forall a, moves R (k a)) -> moves R (bind m k).
Proof.
  intros Hm Hk st. unfold bind. specialize (Hm st).
  destruct (m st) as [[a|e] st1]; cbn in *.
  - eapply R_trans; [exact Hm | apply Hk].
  - exact Hm.
Qed.

Lemma moves_for_each {A} (l : list A) (body : A -> M unit) :
  (forall x, moves R (body x)) -> moves R (for_each l body).
Proof.
  intros Hbody. induction l as [|x l IH]; cbn [for_each].
  - apply moves_ret.
  - apply moves_bind; [apply Hbody | intros _; exact IH].
Qed.

End Moves.

(** Splits a composed computation into its primitive calls, each of which
    [prim] is to settle. *)
Ltac split_moves refl trans prim :=
  repeat first
    [ prim
    | apply (moves_ret _ refl)
    | apply (moves_raise _ refl)
    | apply (moves_lift _ refl)
    | apply (moves_get_self _ refl)
    | apply (moves_for_each _ refl trans); intros ?
    | apply (moves_bind _ trans); [|intros ?]
    | match goal with
      | |- moves _ (match ?x with _ => _ end) => destruct x
      end ].

(** Runs a primitive call on either reachability of the service. *)
Ltac run_primitive :=
  intros st;
  cbv [network client_connect conn_cursor cursor_close cursor_execute
       report_all_handled with_self run_create_schema bind];
  destruct (outages (env st)) as [|[|] ?]; cbn;
  repeat match goal with
         | |- context [match ?x with _ => _ end] => destruct x; cbn
         end.

Section Frames.
Context (P : Platform).

Lemma same_topic_ids_refl st : same_topic_ids st st.
Proof. reflexivity. Qed.

Lemma same_topic_ids_trans a b c :
  same_topic_ids a b -> same_topic_ids b c -> same_topic_ids a c.
Proof. unfold same_topic_ids. congruence. Qed.

Lemma same_acks_refl st : same_acks st st.
Proof. reflexivity. Qed.

Lemma same_acks_trans a b c : same_acks a b -> same_acks b c -> same_acks a c.
Proof. unfold same_acks. congruence. Qed.

Lemma same_cursors_refl st : same_cursors st st.
Proof. split; reflexivity. Qed.

Lemma same_cursors_trans a b c :
  same_cursors a b -> same_cursors b c -> same_cursors a c.
Proof. unfold same_cursors. intros [] []. split; congruence. Qed.

Lemma sends_only_refl Q st : sends_only Q st st.
Proof. exists []. split; [reflexivity | constructor]. Qed.

Lemma sends_only_trans Q a b c :
  sends_only Q a b -> sends_only Q b c -> sends_only Q a c.
Proof.
  intros (e1 & H1 & F1) (e2 & H2 & F2). exists (e2 ++ e1)%list. split.
  - rewrite H2, H1. by rewrite app_assoc.
  - apply Forall_app. by split.
Qed.

Lemma execute_same_topic_ids c q : moves same_topic_ids (cursor_execute P c q).
Proof. run_primitive; reflexivity. Qed.

Lemma execute_same_acks c q : moves same_acks (cursor_execute P c q).
Proof. run_primitive; reflexivity. Qed.

Lemma execute_same_cursors c q : moves same_cursors (cursor_execute P c q).
Proof. run_primitive; split; reflexivity. Qed.

Lemma execute_sends_only (Q : statement -> Prop) c q :
  Q q -> moves (sends_only Q) (cursor_execute P c q).
Proof.
  intros HQ. run_primitive;
    first [ exists []; split; [reflexivity | constructor]
          | exists [EExecute c q]; split;
            [reflexivity | by repeat constructor] ].
Qed.

Lemma with_self_same_acks f : moves same_acks (with_self f).
Proof. run_primitive; reflexivity. Qed.

Lemma with_self_same_cursors f : moves same_cursors (with_self f).
Proof. run_primitive; split; reflexivity. Qed.

Lemma with_self_sends_only Q f : moves (sends_only Q) (with_self f).
Proof. intros st. exists []. split; [reflexivity | constructor]. Qed.

Lemma set_topic_name_same_topic_ids k v :
  moves same_topic_ids (with_self (set_topic_name k v)).
Proof. intros st. reflexivity. Qed.

Lemma set_topic_meta_same_topic_ids k v :
  moves same_topic_ids (with_self (set_topic_meta k v)).
Proof. intros st. reflexivity. Qed.

Lemma set_connection_same_topic_ids c :
  moves same_topic_ids (with_self (set_connection c)).
Proof. intros st. reflexivity. Qed.

(** The loop body writes [_topic_name_map] and [_topic_meta] only. *)
Lemma publish_point_same_topic_ids c x :
  moves same_topic_ids (publish_point P c x).
Proof.
  unfold publish_point, insert_data.
  split_moves same_topic_ids_refl same_topic_ids_trans
    ltac:(first [ apply execute_same_topic_ids
                | apply set_topic_name_same_topic_ids
                | apply set_topic_meta_same_topic_ids ]).
Qed.

Lemma publish_point_same_acks c x : moves same_acks (publish_point P c x).
Proof.
  unfold publish_point, insert_data.
  split_moves same_acks_refl same_acks_trans
    ltac:(first [ apply execute_same_acks | apply with_self_same_acks ]).
Qed.

Lemma publish_point_same_cursors c x :
  moves same_cursors (publish_point P c x).
Proof.
  unfold publish_point, insert_data.
  split_moves same_cursors_refl same_cursors_trans
    ltac:(first [ apply execute_same_cursors | apply with_self_same_cursors ]).
Qed.

(** Every statement sent for a point is a write naming the id computed from
    the folded topic name. *)
Lemma publish_point_sends_only c x :
  moves (sends_only (about_topic (topic_id_of P (topic x))))
        (publish_point P c x).
Proof.
  unfold publish_point, insert_data.
  split_moves (sends_only_refl (about_topic (topic_id_of P (topic x))))
              (sends_only_trans (about_topic (topic_id_of P (topic x))))
    ltac:(first [ apply execute_sends_only; reflexivity
                | apply with_self_sends_only ]).
Qed.

End Frames.

(** ** The category tables under the data insert *)

Lemma rebuild_row r :
  {| row_topic_id := row_topic_id r; row_ts := row_ts r;
     row_result := row_result r |} = r.
Proof. by destruct r. Qed.

Lemma insert_data_row_taken id ts v rows :
  existsb (same_key id ts) rows = true ->
  insert_data_row id ts v rows = rows.
Proof.
  intros H. unfold insert_data_row. rewrite H.
  induction rows as [|r rows IH] in H |- *; [reflexivity|].
  cbn [map]. f_equal.
  - rewrite rebuild_row. by destruct (same_key id ts r).
  - clear. induction rows as [|r' rows IH]; [reflexivity|].
    cbn [map]. rewrite rebuild_row, IH. by destruct (same_key id ts r').
Qed.

Lemma key_count_app id ts rows rows' :
  key_count id ts (rows ++ rows')
  = (key_count id ts rows + key_count id ts rows')%nat.
Proof. unfold key_count. by rewrite List.filter_app, length_app. Qed.

Lemma key_count_none id ts rows :
  existsb (same_key id ts) rows = false <-> key_count id ts rows = O.
Proof.
  unfold key_count. induction rows as [|r rows IH]; [done|].
  cbn [existsb List.filter]. destruct (same_key id ts r); cbn.
  - split; discriminate.
  - exact IH.
Qed.

Lemma same_key_refl id ts v :
  same_key id ts {| row_topic_id := id; row_ts := ts; row_result := v |}
  = true.
Proof. unfold same_key. cbn. by rewrite !String.eqb_refl. Qed.

(** After the insert, exactly one row is stored under the key, provided the
    table held at most one before. *)
Lemma insert_data_row_count id ts v rows :
  (key_count id ts rows <= 1)%nat ->
  key_count id ts (insert_data_row id ts v rows) = 1%nat.
Proof.
  intros Hle. destruct (existsb (same_key id ts) rows) eqn:E.
  - rewrite insert_data_row_taken by done.
    destruct (key_count id ts rows) as [|[|n]] eqn:Hn; [|done|lia].
    apply key_count_none in Hn. congruence.
  - unfold insert_data_row. rewrite E, key_count_app.
    apply key_count_none in E. rewrite E.
    unfold key_count. cbn [List.filter]. by rewrite same_key_refl.
Qed.

Lemma existsb_after_insert id ts v rows :
  existsb (same_key id ts) (insert_data_row id ts v rows) = true.
Proof.
  destruct (existsb (same_key id ts) rows) eqn:E.
  - by rewrite insert_data_row_taken.
  - unfold insert_data_row. rewrite E, existsb_app. cbn [existsb].
    rewrite same_key_refl. by rewrite orb_true_r.
Qed.

Lemma stored_value_fresh id ts rows rows' :
  existsb (same_key id ts) rows = false ->
  List.find (same_key id ts) (rows ++ rows')
  = List.find (same_key id ts) rows'.
Proof.
  induction rows as [|r rows IH]; [done|].
  cbn [existsb List.find app]. destruct (same_key id ts r); [done|].
  exact IH.
Qed.

(** A second insert under the same key, with any value, changes nothing. *)
Lemma insert_data_row_again id ts v v' rows :
  insert_data_row id ts v' (insert_data_row id ts v rows)
  = insert_data_row id ts v rows.
Proof. apply insert_data_row_taken, existsb_after_insert. Qed.

(** No key gets a second row. *)
Lemma insert_data_row_keeps_keys_unique id ts v rows id' ts' :
  (key_count id' ts' rows <= 1)%nat ->
  (key_count id ts rows <= 1)%nat ->
  (key_count id' ts' (insert_data_row id ts v rows) <= 1)%nat.
Proof.
  intros Hle' Hle. destruct (existsb (same_key id ts) rows) eqn:E.
  - by rewrite insert_data_row_taken.
  - unfold insert_data_row. rewrite E, key_count_app.
    unfold key_count at 2. cbn [List.filter].
    destruct (same_key id' ts' _) eqn:K; cbn [length]; [|lia].
    unfold same_key in K. cbn in K.
    apply andb_true_iff in K as [K1 K2].
    apply String.eqb_eq in K1, K2. subst id' ts'.
    apply key_count_none in E. lia.
Qed.

(** ** Ingestion *)

Section Ingestion.
Context (P : Platform).

(** With the service reachable, the category table present and the value
    coercible, the loop body returns and has sent the data insert. *)
Lemma publish_point_stores c x st rows v :
  outages (env st) = [] ->
  tbl_data (db (env st)) !! table_of (source x) = Some rows ->
  coerce P (meta x) (value x) = Ret v ->
  exists st',
    publish_point P c x st = (Ret tt, st')
    /\ outages (env st') = []
    /\ tbl_data (db (env st'))
       = <[table_of (source x) :=
             insert_data_row (topic_id_of P (topic x))
               (format_timestamp P (timestamp x)) v rows]>
           (tbl_data (db (env st))).
Proof.
  destruct st as [h [d o cl nc ncur oc tr ak]]. cbn [env self outages db].
  intros -> Hrows Hv.
  unfold publish_point. rewrite Hv.
  cbv [bind lift get_self with_self insert_data cursor_execute network ret].
  cbn [self env outages db _topic_name_map].
  destruct (_topic_name_map h !! lower (topic x)) as [name|];
    [destruct (negb (name =? topic x)%string)|];
    cbn [db_execute tbl_data tbl_topic tbl_meta env self db outages trace];
    rewrite Hrows;
    match goal with
    | |- context [if ?b then _ else _] => destruct b
    end;
    eexists; (split; [reflexivity|]); split; reflexivity.
Qed.

Lemma get_connection_reachable st :
  outages (env st) = [] ->
  exists conn st1,
    get_connection st = (Ret conn, st1)
    /\ outages (env st1) = []
    /\ db (env st1) = db (env st).
Proof.
  destruct st as [h [d o cl nc ncur oc tr ak]]. cbn [env outages].
  intros ->. unfold get_connection.
  cbv [bind get_self client_connect network with_self ret].
  cbn [self env outages]. destruct (_connection h) as [conn|];
    do 2 eexists; (split; [reflexivity|]); split; reflexivity.
Qed.

(** A batch of one point, under the same conditions. *)
Lemma publish_one_stores x st rows v :
  outages (env st) = [] ->
  tbl_data (db (env st)) !! table_of (source x) = Some rows ->
  coerce P (meta x) (value x) = Ret v ->
  exists st',
    publish_to_historian P [x] st = (Ret tt, st')
    /\ outages (env st') = []
    /\ tbl_data (db (env st'))
       = <[table_of (source x) :=
             insert_data_row (topic_id_of P (topic x))
               (format_timestamp P (timestamp x)) v rows]>
           (tbl_data (db (env st))).
Proof.
  intros Ho Hrows Hv.
  destruct (get_connection_reachable st Ho) as (conn & st1 & E1 & Ho1 & Hd1).
  unfold publish_to_historian, publish_try. rewrite E1.
  destruct (conn_cursor conn st1) as [rc st2] eqn:E2.
  assert (rc = Ret (next_cursor (env st1))
          /\ outages (env st2) = [] /\ db (env st2) = db (env st))
    as (-> & Ho2 & Hd2).
  { unfold conn_cursor in E2. injection E2 as <- <-. cbn. by rewrite Hd1. }
  rewrite <- Hd2 in Hrows.
  destruct (publish_point_stores (next_cursor (env st1)) x st2 rows v
              Ho2 Hrows Hv) as (st3 & E3 & Ho3 & Hd3).
  cbn [for_each]. unfold bind at 1 2. rewrite E3.
  cbv [ret report_all_handled cursor_close]. cbn [self env].
  eexists. split; [reflexivity|]. cbn. rewrite Hd3, Hd2. by split.
Qed.

(** C1: re-ingesting a point is a no-op on the category table.  With the
    service reachable, the point's category table present and holding at
    most one row under the point's (topic_id, timestamp) key, and the value
    coercible, ingesting the point twice raises no error either time; after
    the first ingestion exactly one row is stored under the key, the second
    ingestion leaves every category table as it was, and a key that was
    already taken before the first ingestion keeps its table unchanged. *)
Theorem reingest_is_noop x st rows v :
  let table := table_of (source x) in
  let id := topic_id_of P (topic x) in
  let ts := format_timestamp P (timestamp x) in
  outages (env st) = [] ->
  tbl_data (db (env st)) !! table = Some rows ->
  (key_count id ts rows <= 1)%nat ->
  coerce P (meta x) (value x) = Ret v ->
  exists st1 st2 rows1,
    publish_to_historian P [x] st = (Ret tt, st1)
    /\ publish_to_historian P [x] st1 = (Ret tt, st2)
    /\ tbl_data (db (env st1)) !! table = Some rows1
    /\ key_count id ts rows1 = 1%nat
    /\ tbl_data (db (env st2)) = tbl_data (db (env st1))
    /\ stored_value id ts rows1
       = (if existsb (same_key id ts) rows then stored_value id ts rows
          else Some v)
    /\ (existsb (same_key id ts) rows = true ->
        tbl_data (db (env st1)) = tbl_data (db (env st))).
Proof.
  intros table id ts Ho Hrows Hle Hv.
  destruct (publish_one_stores x st rows v Ho Hrows Hv)
    as (st1 & E1 & Ho1 & Hd1).
  fold table id ts in Hd1.
  assert (tbl_data (db (env st1)) !! table
          = Some (insert_data_row id ts v rows)) as Hrows1.
  { rewrite Hd1. apply lookup_insert_eq. }
  destruct (publish_one_stores x st1 _ v Ho1 Hrows1 Hv)
    as (st2 & E2 & Ho2 & Hd2).
  fold table id ts in Hd2.
  exists st1, st2, (insert_data_row id ts v rows).
  repeat split; try assumption.
  - by apply insert_data_row_count.
  - rewrite Hd2, insert_data_row_again, Hd1. apply insert_insert_eq.
  - destruct (existsb (same_key id ts) rows) eqn:E.
    + by rewrite insert_data_row_taken.
    + unfold insert_data_row. rewrite E. unfold stored_value.
      rewrite stored_value_fresh by done. cbn [List.find].
      by rewrite same_key_refl.
  - intros E. rewrite Hd1, insert_data_row_taken by done.
    by apply insert_id.
Qed.

Lemma lower_same_ignoring_case a b :
  same_ignoring_case a b = true -> lower a = lower b.
Proof.
  revert b. induction a as [|x a IH]; intros [|y b]; cbn; try done.
  intros [Hc Hr]%andb_true_iff. apply Ascii.eqb_eq in Hc.
  by rewrite Hc, (IH b).
Qed.

(** C2: the topic id is a function of the case-folded name alone.  Two
    names that differ only by letter case get the same id, and in any two
    states of the process and of the storage service (before or after a
    restart, whatever the tables hold) every statement sent while ingesting
    a point is a write that names this id: the id is never read back from
    the service. *)
Theorem topic_id_ignores_case x1 x2 :
  same_ignoring_case (topic x1) (topic x2) = true ->
  topic_id_of P (topic x1) = topic_id_of P (topic x2)
  /\ forall c1 c2 st1 st2,
       sends_only (about_topic (topic_id_of P (topic x1)))
                  st1 (snd (publish_point P c1 x1 st1))
       /\ sends_only (about_topic (topic_id_of P (topic x1)))
                     st2 (snd (publish_point P c2 x2 st2)).
Proof.
  intros Hcase.
  assert (topic_id_of P (topic x1) = topic_id_of P (topic x2)) as Hid.
  { unfold topic_id_of. by rewrite (lower_same_ignoring_case _ _ Hcase). }
  split; [exact Hid|]. intros c1 c2 st1 st2. split.
  - apply publish_point_sends_only.
  - rewrite Hid. apply publish_point_sends_only.
Qed.

(** The guard of the metadata write looks the topic id up inside the cached
    metadata mapping; unless the id happens to be one of its keys, the guard
    holds, also when the cached and the new mapping are equal. *)
Lemma meta_differs_without_id_key old_meta topic_id meta :
  dict_get old_meta topic_id = None ->
  meta_differs P old_meta topic_id meta = true.
Proof. intros H. unfold meta_differs. by rewrite H. Qed.

(** C3 (the code departs from it): ingesting a point whose metadata equals
    the cached metadata of its topic still sends the metadata insert, as
    long as the topic id is not itself a key of the metadata mapping. *)
Theorem unchanged_metadata_is_written_again c x st rows v :
  outages (env st) = [] ->
  tbl_data (db (env st)) !! table_of (source x) = Some rows ->
  coerce P (meta x) (value x) = Ret v ->
  _topic_meta (self st) !! topic_id_of P (topic x) = Some (meta x) ->
  dict_get (meta x) (topic_id_of P (topic x)) = None ->
  exists st',
    publish_point P c x st = (Ret tt, st')
    /\ head (trace (env st'))
       = Some (EExecute c (InsertMeta (topic_id_of P (topic x))
                                      (dumps P (meta x))))
    /\ _topic_meta (self st') !! topic_id_of P (topic x) = Some (meta x).
Proof.
  destruct st as [h [d o cl nc ncur oc tr ak]].
  cbn [env self outages db].
  intros -> Hrows Hv Hcache Hkey.
  unfold publish_point. rewrite Hv.
  cbv [bind lift get_self with_self insert_data cursor_execute network ret].
  cbn [self env outages db _topic_name_map].
  destruct (_topic_name_map h !! lower (topic x)) as [name|];
    [destruct (negb (name =? topic x)%string)|];
    cbn [db_execute tbl_data tbl_topic tbl_meta env self db outages trace
         set_topic_name _topic_meta];
    rewrite Hrows;
    cbn [self set_topic_name _topic_meta];
    rewrite Hcache; cbn [default from_option id];
    rewrite (meta_differs_without_id_key _ _ _ Hkey);
    cbn [db_execute tbl_data tbl_topic tbl_meta env self db outages trace
         set_topic_meta _topic_meta];
    eexists; (split; [reflexivity|]); (split; [reflexivity|]);
    apply lookup_insert_eq.
Qed.

Lemma get_connection_same_topic_ids : moves same_topic_ids get_connection.
Proof.
  unfold get_connection.
  split_moves same_topic_ids_refl same_topic_ids_trans
    ltac:(first [ apply set_connection_same_topic_ids
                | run_primitive; reflexivity ]).
Qed.

Lemma loop_same_topic_ids c l :
  moves same_topic_ids (for_each l (publish_point P c)).
Proof.
  apply (moves_for_each _ same_topic_ids_refl same_topic_ids_trans).
  apply publish_point_same_topic_ids.
Qed.

Lemma loop_same_acks c l : moves same_acks (for_each l (publish_point P c)).
Proof.
  apply (moves_for_each _ same_acks_refl same_acks_trans).
  apply publish_point_same_acks.
Qed.

Lemma loop_same_cursors c l :
  moves same_cursors (for_each l (publish_point P c)).
Proof.
  apply (moves_for_each _ same_cursors_refl same_cursors_trans).
  apply publish_point_same_cursors.
Qed.

Lemma get_connection_same_acks : moves same_acks get_connection.
Proof.
  unfold get_connection.
  split_moves same_acks_refl same_acks_trans
    ltac:(first [ apply with_self_same_acks | run_primitive; reflexivity ]).
Qed.

Lemma get_connection_same_cursors : moves same_cursors get_connection.
Proof.
  unfold get_connection.
  split_moves same_cursors_refl same_cursors_trans
    ltac:(first [ apply with_self_same_cursors
                | run_primitive; split; reflexivity ]).
Qed.

(** How a call of [publish_to_historian] ends, by what its [try] suite
    did. *)
Lemma publish_shape l st :
  match get_connection st with
  | (Raise e, st1) =>
      publish_to_historian P l st
      = (Raise UnboundLocalError,
         match e with
         | ConnectionError => snd (with_self (set_connection None) st1)
         | _ => st1
         end)
  | (Ret conn, st1) =>
      let c := next_cursor (env st1) in
      match for_each l (publish_point P c) (snd (conn_cursor conn st1)) with
      | (Ret _, st3) =>
          publish_to_historian P l st
          = (Ret tt, snd (cursor_close c (snd (report_all_handled st3))))
      | (Raise ConnectionError, st3) =>
          publish_to_historian P l st
          = (Ret tt,
             snd (cursor_close c (snd (with_self (set_connection None) st3))))
      | (Raise e, st3) =>
          publish_to_historian P l st = (Raise e, snd (cursor_close c st3))
      end
  end.
Proof.
  unfold publish_to_historian, publish_try.
  destruct (get_connection st) as [[conn|e] st1].
  - unfold conn_cursor. cbn [snd]. cbv zeta. unfold bind. cbv beta.
    match goal with
    | |- context [for_each ?l ?k ?s] =>
        destruct (for_each l k s) as [[[]|[]] st3]
    end; reflexivity.
  - by destruct e.
Qed.

Lemma publish_try_shape l st :
  publish_try P l st
  = match get_connection st with
    | (Raise e, st1) => (Raise e, None, st1)
    | (Ret conn, st1) =>
        let c := next_cursor (env st1) in
        match for_each l (publish_point P c) (snd (conn_cursor conn st1)) with
        | (Ret _, st3) => (Ret tt, Some c, snd (report_all_handled st3))
        | (Raise e, st3) => (Raise e, Some c, st3)
        end
    end.
Proof.
  unfold publish_try.
  destruct (get_connection st) as [[conn|e] st1]; [|reflexivity].
  unfold conn_cursor. cbn [snd]. cbv zeta. unfold bind. cbv beta.
  match goal with
  | |- context [for_each ?l ?k ?s] =>
      destruct (for_each l k s) as [[[]|?] st3]
  end; reflexivity.
Qed.

(** Takes a call of [publish_to_historian] apart along [publish_shape],
    with what relation [R] says about its connection step ([Hc]) and about
    its loop ([Hl]). *)
Ltac publish_cases R Hconn Hloop l st :=
  let Hs := fresh "Hs" in
  let Hc := fresh "Hc" in
  let Hl := fresh "Hl" in
  pose proof (publish_shape l st) as Hs;
  pose proof (Hconn st : R st (snd (get_connection st))) as Hc;
  destruct (get_connection st) as [[?conn|?e] ?st1]; cbn [snd] in Hc;
  [ cbv zeta in Hs |- *;
    match type of Hs with
    | context [for_each ?l' (publish_point ?p ?c) ?s] =>
        pose proof (Hloop c l' s
                    : R s (snd (for_each l' (publish_point p c) s))) as Hl;
        destruct (for_each l' (publish_point p c) s) as [[[]|[]] ?st3];
        cbn [snd] in Hl
    end
  | destruct e ];
  rewrite Hs; clear Hs.

(** Ingestion never writes [_topic_id_map]. *)
Lemma publish_same_topic_ids l : moves same_topic_ids (publish_to_historian P l).
Proof.
  intros st.
  publish_cases same_topic_ids get_connection_same_topic_ids
    loop_same_topic_ids l st.
  all: unfold same_topic_ids in *; cbn in *; congruence.
Qed.

(** C4 (the code departs from it): a topic that is not in [_topic_id_map]
    when a batch is ingested is still not in it afterwards, so the query
    for it returns the empty result, whatever the batch stored. *)
Theorem ingested_topic_is_not_resolved l st topic start end_ agg_type
    agg_period skip count order :
  _topic_id_map (self st) !! strip_category (split_head topic) topic = None ->
  query_historian P topic start end_ agg_type agg_period skip count order
    (snd (publish_to_historian P l st))
  = (Ret {| values := []; metadata := [] |},
     snd (publish_to_historian P l st)).
Proof.
  intros Hmap. apply invalid_topic_gives_empty.
  right. by rewrite (publish_same_topic_ids l st).
Qed.

(** The batch is acknowledged once when the [try] suite runs to its end,
    and not at all otherwise. *)
Lemma publish_acks l st :
  acks (env (snd (publish_to_historian P l st)))
  = match fst (fst (publish_try P l st)) with
    | Ret _ => S (acks (env st))
    | Raise _ => acks (env st)
    end.
Proof.
  rewrite publish_try_shape.
  publish_cases same_acks get_connection_same_acks loop_same_acks l st.
  all: unfold same_acks in *; cbn in *; congruence.
Qed.

(** A ConnectionError in the [try] suite drops the cached connection, and
    once the cursor was obtained the call returns as if nothing had
    happened. *)
Lemma publish_connection_loss l st :
  fst (fst (publish_try P l st)) = Raise ConnectionError ->
  _connection (self (snd (publish_to_historian P l st))) = None
  /\ (snd (fst (publish_try P l st)) <> None ->
      fst (publish_to_historian P l st) = Ret tt).
Proof.
  rewrite publish_try_shape.
  publish_cases same_acks get_connection_same_acks loop_same_acks l st.
  all: cbn; intros [=]; by split.
Qed.

(** After a dropped connection the next call connects anew. *)
Lemma get_connection_reconnects st :
  _connection (self st) = None ->
  get_connection st
  = bind client_connect
      (fun c => with_self (set_connection (Some c)) ;;; ret c) st.
Proof. intros H. unfold get_connection, bind at 1, get_self. by rewrite H. Qed.

Lemma get_connection_unreachable st o :
  _connection (self st) = None ->
  outages (env st) = true :: o ->
  exists st1,
    get_connection st = (Raise ConnectionError, st1)
    /\ self st1 = self st
    /\ acks (env st1) = acks (env st)
    /\ open_cursors (env st1) = open_cursors (env st)
    /\ next_cursor (env st1) = next_cursor (env st).
Proof.
  intros Hc Ho. rewrite get_connection_reconnects by done.
  destruct st as [h [d o' cl nc ncur oc tr ak]]. cbn in Ho. subst o'.
  eexists. split; [reflexivity|]. by repeat split.
Qed.

(** C5 (the code departs from it): when the service cannot be reached at
    the start of the call, with no connection cached, the batch is not
    acknowledged and no connection stays cached, but the failure is not
    silent: the call raises UnboundLocalError to its caller. *)
Theorem connect_failure_is_not_silent l st o :
  _connection (self st) = None ->
  outages (env st) = true :: o ->
  fst (publish_to_historian P l st) = Raise UnboundLocalError
  /\ acks (env (snd (publish_to_historian P l st))) = acks (env st)
  /\ _connection (self (snd (publish_to_historian P l st))) = None.
Proof.
  intros Hc Ho.
  destruct (get_connection_unreachable st o Hc Ho)
    as (st1 & E & Hself & Hacks & _).
  pose proof (publish_shape l st) as Hs. rewrite E in Hs. rewrite Hs.
  cbn. by repeat split.
Qed.

(** C7 (the code departs from it): when [get_connection] raises, the local
    [cursor] is never assigned; no cursor was opened, and the [finally]
    suite itself fails, with UnboundLocalError, on reading the variable. *)
Theorem cleanup_fails_without_cursor l st e st1 :
  get_connection st = (Raise e, st1) ->
  snd (fst (publish_try P l st)) = None
  /\ fst (publish_to_historian P l st) = Raise UnboundLocalError
  /\ same_cursors st (snd (publish_to_historian P l st)).
Proof.
  intros E. rewrite publish_try_shape.
  pose proof (publish_shape l st) as Hs.
  pose proof (get_connection_same_cursors st) as Hc.
  rewrite E in Hs, Hc |- *. rewrite Hs. cbn [fst snd] in *.
  split; [reflexivity|]. split; [reflexivity|].
  destruct Hc as [Hc1 Hc2]. by destruct e.
Qed.

Lemma filter_fresh_cursor (c : nat) (oc : list nat) :
  Forall (fun c' => (c' < c)%nat) oc ->
  filter (fun c' => c' <> c) (c :: oc) = oc.
Proof.
  intros Hlt. rewrite filter_cons_False by (intros H; by apply H).
  induction Hlt as [|c' oc Hc' _ IH]; [done|].
  rewrite filter_cons_True by lia. by rewrite IH.
Qed.

(** Whenever the cursor was obtained, it is closed again when the call
    ends, on each of its ways out. *)
Lemma publish_releases_its_cursor l st :
  Forall (fun c => (c < next_cursor (env st))%nat) (open_cursors (env st)) ->
  open_cursors (env (snd (publish_to_historian P l st)))
  = open_cursors (env st).
Proof.
  intros Hlt.
  publish_cases same_cursors get_connection_same_cursors loop_same_cursors
    l st.
  all: destruct Hc as [Hc1 Hc2]; try destruct Hl as [Hl1 Hl2];
    cbn in *; try congruence.
  all: rewrite Hl1, <- Hc1; apply filter_fresh_cursor; by rewrite Hc1, Hc2.
Qed.

End Ingestion.

(** ** The theorems at concrete inputs *)

Lemma reingest_is_noop_witness :
  exists st1 st2 rows1,
    publish_to_historian Demo.platform [Demo.ahu1_temp 100] (Demo.started 200)
    = (Ret tt, st1)
    /\ publish_to_historian Demo.platform [Demo.ahu1_temp 100] st1
       = (Ret tt, st2)
    /\ tbl_data (db (env st1)) !! "device" = Some rows1
    /\ key_count (Demo.digest "building/ahu1/temp") "100" rows1 = 1%nat
    /\ tbl_data (db (env st2)) = tbl_data (db (env st1))
    /\ stored_value (Demo.digest "building/ahu1/temp") "100" rows1
       = Some (PFloat (QArith_base.inject_Z 72))
    /\ (true = true ->
        tbl_data (db (env st1)) = tbl_data (db (env (Demo.started 200)))).
Proof.
  apply (reingest_is_noop Demo.platform (Demo.ahu1_temp 100)
           (Demo.started 200)
           [{| row_topic_id := Demo.digest "building/ahu1/temp";
               row_ts := "100";
               row_result := PFloat (QArith_base.inject_Z 72) |}]
           (PFloat (QArith_base.inject_Z 72))).
  - reflexivity.
  - vm_compute. reflexivity.
  - vm_compute. lia.
  - reflexivity.
Defined.

Lemma topic_id_ignores_case_witness :
  topic_id_of Demo.platform "Building/AHU1/Temp"
  = topic_id_of Demo.platform "building/ahu1/temp"
  /\ forall c1 c2 st1 st2,
       sends_only (about_topic (topic_id_of Demo.platform "Building/AHU1/Temp"))
         st1
         (snd (publish_point Demo.platform c1
                 {| timestamp := 100; source := "device";
                    topic := "Building/AHU1/Temp"; value := PInt 72;
                    meta := [("type", PStr "float")] |} st1))
       /\ sends_only
            (about_topic (topic_id_of Demo.platform "Building/AHU1/Temp"))
            st2 (snd (publish_point Demo.platform c2 (Demo.ahu1_temp 100) st2)).
Proof.
  apply (topic_id_ignores_case Demo.platform
           {| timestamp := 100; source := "device";
              topic := "Building/AHU1/Temp"; value := PInt 72;
              meta := [("type", PStr "float")] |}
           (Demo.ahu1_temp 100)).
  reflexivity.
Defined.

Lemma unchanged_metadata_is_written_again_witness :
  exists st',
    publish_point Demo.platform 0 (Demo.ahu1_temp 100) (Demo.started 200)
    = (Ret tt, st')
    /\ head (trace (env st'))
       = Some (EExecute 0 (InsertMeta (Demo.digest "building/ahu1/temp")
                                      "{type: float, }"))
    /\ _topic_meta (self st') !! Demo.digest "building/ahu1/temp"
       = Some [("type", PStr "float")].
Proof.
  apply (unchanged_metadata_is_written_again Demo.platform 0%nat
           (Demo.ahu1_temp 100) (Demo.started 200)
           [{| row_topic_id := Demo.digest "building/ahu1/temp";
               row_ts := "100";
               row_result := PFloat (QArith_base.inject_Z 72) |}]
           (PFloat (QArith_base.inject_Z 72))).
  - reflexivity.
  - vm_compute. reflexivity.
  - reflexivity.
  - vm_compute. reflexivity.
  - reflexivity.
Defined.

Lemma ingested_topic_is_not_resolved_witness :
  query_historian Demo.platform "device/building/ahu1/temp" None None None
    None 0 (Some 1%Z) "FIRST_TO_LAST"
    (snd (publish_to_historian Demo.platform [Demo.ahu1_temp 100]
            (snd (historian_setup Demo.platform (Demo.fresh 200)))))
  = (Ret {| values := []; metadata := [] |},
     snd (publish_to_historian Demo.platform [Demo.ahu1_temp 100]
            (snd (historian_setup Demo.platform (Demo.fresh 200))))).
Proof.
  apply (ingested_topic_is_not_resolved Demo.platform [Demo.ahu1_temp 100]
           (snd (historian_setup Demo.platform (Demo.fresh 200)))
           "device/building/ahu1/temp").
  vm_compute. reflexivity.
Defined.

(** The scenario of the specification, on a service and a process freshly
    started at time 200: the point is stored and the batch acknowledged,
    and the query that follows returns no value. *)
Example scenario_ingest_then_query :
  let st0 := snd (historian_setup Demo.platform (Demo.fresh 200)) in
  let st1 := snd (publish_to_historian Demo.platform [Demo.ahu1_temp 100] st0)
  in
  fst (publish_to_historian Demo.platform [Demo.ahu1_temp 100] st0) = Ret tt
  /\ acks (env st1) = 1%nat
  /\ tbl_data (db (env st1)) !! "device"
     = Some [{| row_topic_id := Demo.digest "building/ahu1/temp";
                row_ts := "100";
                row_result := PFloat (QArith_base.inject_Z 72) |}]
  /\ _topic_name_map (self st1) !! "building/ahu1/temp"
     = Some "building/ahu1/temp"
  /\ _topic_id_map (self st1) !! "building/ahu1/temp" = None
  /\ fst (query_historian Demo.platform "device/building/ahu1/temp" None None
            None None 0 (Some 1%Z) "FIRST_TO_LAST" st1)
     = Ret {| values := []; metadata := [] |}.
Proof. vm_compute. repeat split; reflexivity. Qed.

(** The same point ingested twice with the same metadata: the metadata
    insert is sent both times. *)
Example same_metadata_twice :
  let st0 := snd (historian_setup Demo.platform (Demo.fresh 200)) in
  let st2 :=
    snd (publish_to_historian Demo.platform
           [Demo.ahu1_temp 100; Demo.ahu1_temp 100] st0) in
  List.filter (fun e => match e with
                        | EExecute _ (InsertMeta _ _) => true
                        | _ => false
                        end) (trace (env st2))
  = [EExecute 2 (InsertMeta (Demo.digest "building/ahu1/temp")
                            "{type: float, }");
     EExecute 2 (InsertMeta (Demo.digest "building/ahu1/temp")
                            "{type: float, }")].
Proof. vm_compute. reflexivity. Qed.

Lemma connect_failure_is_not_silent_witness :
  fst (publish_to_historian Demo.platform [Demo.ahu1_temp 100]
         (Demo.fresh_with_outages 200 [true]))
  = Raise UnboundLocalError
  /\ acks (env (snd (publish_to_historian Demo.platform [Demo.ahu1_temp 100]
                       (Demo.fresh_with_outages 200 [true]))))
     = acks (env (Demo.fresh_with_outages 200 [true]))
  /\ _connection
       (self (snd (publish_to_historian Demo.platform [Demo.ahu1_temp 100]
                     (Demo.fresh_with_outages 200 [true]))))
     = None.
Proof.
  apply (connect_failure_is_not_silent Demo.platform [Demo.ahu1_temp 100]
           (Demo.fresh_with_outages 200 [true]) []); reflexivity.
Defined.

Lemma cleanup_fails_without_cursor_witness :
  snd (fst (publish_try Demo.platform [Demo.ahu1_temp 100]
              (Demo.fresh_with_outages 200 [true]))) = None
  /\ fst (publish_to_historian Demo.platform [Demo.ahu1_temp 100]
            (Demo.fresh_with_outages 200 [true]))
     = Raise UnboundLocalError
  /\ same_cursors (Demo.fresh_with_outages 200 [true])
       (snd (publish_to_historian Demo.platform [Demo.ahu1_temp 100]
               (Demo.fresh_with_outages 200 [true]))).
Proof.
  apply (cleanup_fails_without_cursor Demo.platform [Demo.ahu1_temp 100]
           (Demo.fresh_with_outages 200 [true]) ConnectionError
           (snd (get_connection (Demo.fresh_with_outages 200 [true])))).
  reflexivity.
Defined.

(** The connection lost after the first point of a batch of three: the
    call returns, nothing is acknowledged, the connection is dropped and the
    cursor closed; the redelivered batch then leaves three rows. *)
Example connection_lost_mid_batch :
  let batch := [Demo.ahu1_temp 100; Demo.ahu1_temp 101; Demo.ahu1_temp 102] in
  let st0 :=
    snd (historian_setup Demo.platform (Demo.fresh 200)) in
  let lossy :=
    {| self := self st0;
       env := {| db := db (env st0);
                 outages := [false; false; false; true];
                 clock := 200; next_conn := next_conn (env st0);
                 next_cursor := next_cursor (env st0);
                 open_cursors := open_cursors (env st0);
                 trace := trace (env st0); acks := acks (env st0) |} |} in
  let st1 := snd (publish_to_historian Demo.platform batch lossy) in
  let st2 := snd (publish_to_historian Demo.platform batch st1) in
  fst (publish_to_historian Demo.platform batch lossy) = Ret tt
  /\ acks (env st1) = O
  /\ _connection (self st1) = None
  /\ open_cursors (env st1) = []
  /\ fst (publish_to_historian Demo.platform batch st1) = Ret tt
  /\ acks (env st2) = 1%nat
  /\ length <$> (tbl_data (db (env st2)) !! "device") = Some 3%nat.
Proof. vm_compute. repeat split; reflexivity. Qed.

(** The same point ingested twice with different metadata: the cache ends
    with the second mapping and the insert is sent once per content, but on
    the taken key the meta table keeps the first one
    ([ON DUPLICATE KEY UPDATE meta_data=meta_data]). *)
Example changed_metadata_twice :
  let p m := {| timestamp := 100; source := "device";
                topic := "building/ahu1/temp"; value := PInt 72;
                meta := m |} in
  let st0 := snd (historian_setup Demo.platform (Demo.fresh 200)) in
  let st2 :=
    snd (publish_to_historian Demo.platform
           [p [("units", PStr "F")]; p [("units", PStr "C")]] st0) in
  _topic_meta (self st2) !! Demo.digest "building/ahu1/temp"
  = Some [("units", PStr "C")]
  /\ List.filter (fun e => match e with
                           | EExecute _ (InsertMeta _ _) => true
                           | _ => false
                           end) (trace (env st2))
     = [EExecute 2 (InsertMeta (Demo.digest "building/ahu1/temp")
                               "{units: C, }");
        EExecute 2 (InsertMeta (Demo.digest "building/ahu1/temp")
                               "{units: F, }")]
  /\ tbl_meta (db (env st2))
     = [(Demo.digest "building/ahu1/temp", "{units: F, }")].
Proof. vm_compute. repeat split; reflexivity. Qed.

(** Once the process is started anew on the same service, [_load_topic_map]
    puts the topic into [_topic_id_map] and the query finds the point. *)
Example restart_makes_topic_visible :
  let p := {| timestamp := 100; source := "device";
              topic := "building/ahu1/temp"; value := PInt 72;
              meta := [] |} in
  let st0 := snd (historian_setup Demo.platform (Demo.fresh 200)) in
  let st1 := snd (publish_to_historian Demo.platform [p] st0) in
  let restarted := {| self := init_historian; env := env st1 |} in
  let st2 := snd (historian_setup Demo.platform restarted) in
  fst (query_historian Demo.platform "device/building/ahu1/temp" None None
         None None 0 (Some 1%Z) "FIRST_TO_LAST" st1)
  = Ret {| values := []; metadata := [] |}
  /\ fst (historian_setup Demo.platform restarted) = Ret tt
  /\ fst (query_historian Demo.platform "device/building/ahu1/temp" None None
            None None 0 (Some 1%Z) "FIRST_TO_LAST" st2)
     = Ret {| values := [("100", PInt 72)]; metadata := [] |}.
Proof. vm_compute. repeat split; reflexivity. Qed.

(** * The rest of the module

    What follows covers the ingestion and query paths beyond the statements
    above, and the loading of the maps at startup. *)

(** ** The tables under any statement *)

Lemma insert_or_keep_taken k v rows :
  key_taken k rows = true -> insert_or_keep k v rows = rows.
Proof.
  intros H. unfold insert_or_keep. rewrite H. clear H.
  induction rows as [|[a b] rows IH]; [reflexivity|].
  cbn [map fst snd]. rewrite IH. by destruct (a =? k)%string.
Qed.

Lemma key_taken_elem k rows :
  key_taken k rows = false -> k ∉ map fst rows.
Proof.
  unfold key_taken. induction rows as [|[a b] rows IH]; cbn.
  - intros _ H. by apply elem_of_nil in H.
  - intros [Ha Hr]%orb_false_iff. apply String.eqb_neq in Ha.
    intros [->|H]%elem_of_cons; [done|]. by apply IH.
Qed.

Lemma insert_or_keep_grows k v rows :
  (exists more, insert_or_keep k v rows = (rows ++ more)%list
                /\ map fst (insert_or_keep k v rows)
                   = (map fst rows ++ map fst more)%list)
  /\ (NoDup (map fst rows) -> NoDup (map fst (insert_or_keep k v rows))).
Proof.
  destruct (key_taken k rows) eqn:E.
  - rewrite insert_or_keep_taken by done. split; [|done].
    exists []. by rewrite !app_nil_r.
  - unfold insert_or_keep. rewrite E. split.
    + exists [(k, v)]. by rewrite map_app.
    + intros Hnd. rewrite map_app. apply NoDup_app. split; [done|].
      split; [|apply NoDup_singleton].
      intros x Hx [->|H]%elem_of_cons; [|by apply elem_of_nil in H].
      by apply key_taken_elem in E.
Qed.

Lemma update_name_ids name id rows :
  map fst (update_name name id rows) = map fst rows.
Proof.
  unfold update_name. induction rows as [|[a b] rows IH]; [reflexivity|].
  cbn [map fst]. rewrite IH. by destruct (a =? id)%string.
Qed.

Lemma insert_data_row_grows id ts v rows :
  exists more, insert_data_row id ts v rows = (rows ++ more)%list.
Proof.
  destruct (existsb (same_key id ts) rows) eqn:E.
  - exists []. rewrite insert_data_row_taken by done. by rewrite app_nil_r.
  - unfold insert_data_row. rewrite E. by eexists.
Qed.

Section Tables.
Context (P : Platform).

Lemma data_grows_refl d : data_grows d d.
Proof. intros table rows H. exists []. by rewrite app_nil_r. Qed.

Lemma data_grows_same d d' : tbl_data d' = tbl_data d -> data_grows d d'.
Proof. intros E table rows H. exists []. by rewrite E, app_nil_r. Qed.

Lemma data_grows_trans a b c : data_grows a b -> data_grows b c -> data_grows a c.
Proof.
  intros Hab Hbc table rows H.
  destruct (Hab _ _ H) as [m1 H1]. destruct (Hbc _ _ H1) as [m2 H2].
  exists (m1 ++ m2)%list. by rewrite app_assoc.
Qed.

Lemma data_grows_execute d q d' rs :
  db_execute P d q = Ret (d', rs) -> data_grows d d'.
Proof.
  destruct q as [id name|name id|table topic_id ts data data'
                |topic_id meta_data| | |q]; cbn [db_execute];
    try (intros [= <- _]; by apply data_grows_same).
  - destruct (tbl_data d !! table) as [rows0|] eqn:E; [|discriminate].
    intros [= <- _] table' rows H. cbn [tbl_data].
    destruct (decide (table' = table)) as [->|Hne].
    + rewrite lookup_insert_eq. rewrite E in H. injection H as <-.
      destruct (insert_data_row_grows topic_id ts data rows0) as [more ->].
      by exists more.
    + rewrite lookup_insert_ne by done. exists []. by rewrite app_nil_r.
  - destruct (run_select P d q) as [rows|e]; [|discriminate].
    intros [= <- _]. by apply data_grows_same.
Qed.

Lemma keys_unique_same d d' :
  tbl_data d' = tbl_data d -> keeps keys_unique d d'.
Proof. intros E Hu table rows id ts. rewrite E. apply Hu. Qed.

Lemma keys_unique_execute d q d' rs :
  db_execute P d q = Ret (d', rs) -> keeps keys_unique d d'.
Proof.
  destruct q as [id name|name id|table topic_id ts data data'
                |topic_id meta_data| | |q]; cbn [db_execute];
    try (intros [= <- _]; by apply keys_unique_same).
  - destruct (tbl_data d !! table) as [rows0|] eqn:E; [|discriminate].
    intros [= <- _] Hu table' rows id' ts'. cbn [tbl_data].
    destruct (decide (table' = table)) as [->|Hne].
    + rewrite lookup_insert_eq. intros [= <-].
      apply insert_data_row_keeps_keys_unique; by eapply Hu.
    + rewrite lookup_insert_ne by done. apply Hu.
  - destruct (run_select P d q) as [rows|e]; [|discriminate].
    intros [= <- _]. by apply keys_unique_same.
Qed.

Lemma meta_grows_refl d : meta_grows d d.
Proof. split; [|done]. exists []. by rewrite app_nil_r. Qed.

Lemma meta_grows_same d d' : tbl_meta d' = tbl_meta d -> meta_grows d d'.
Proof.
  intros E. unfold meta_grows. rewrite E. split; [|done].
  exists []. by rewrite app_nil_r.
Qed.

Lemma meta_grows_trans a b c : meta_grows a b -> meta_grows b c -> meta_grows a c.
Proof.
  intros [[m1 H1] N1] [[m2 H2] N2]. split; [|by auto].
  exists (m1 ++ m2)%list. by rewrite H2, H1, app_assoc.
Qed.

Lemma meta_grows_execute d q d' rs :
  db_execute P d q = Ret (d', rs) -> meta_grows d d'.
Proof.
  destruct q as [id name|name id|table topic_id ts data data'
                |topic_id meta_data| | |q]; cbn [db_execute];
    try (intros [= <- _]; by apply meta_grows_same).
  - destruct (tbl_data d !! table); [|discriminate].
    intros [= <- _]. by apply meta_grows_same.
  - intros [= <- _]. unfold meta_grows. cbn [tbl_meta].
    destruct (insert_or_keep_grows topic_id meta_data (tbl_meta d))
      as [(more & H & _) N].
    split; [by exists more | done].
  - destruct (run_select P d q) as [rows|e]; [|discriminate].
    intros [= <- _]. by apply meta_grows_same.
Qed.

Lemma topic_ids_grow_refl d : topic_ids_grow d d.
Proof. split; [|done]. exists []. by rewrite app_nil_r. Qed.

Lemma topic_ids_grow_same d d' :
  tbl_topic d' = tbl_topic d -> topic_ids_grow d d'.
Proof.
  intros E. unfold topic_ids_grow. rewrite E. split; [|done].
  exists []. by rewrite app_nil_r.
Qed.

Lemma topic_ids_grow_trans a b c :
  topic_ids_grow a b -> topic_ids_grow b c -> topic_ids_grow a c.
Proof.
  intros [[m1 H1] N1] [[m2 H2] N2]. split; [|by auto].
  exists (m1 ++ m2)%list. by rewrite H2, H1, app_assoc.
Qed.

Lemma topic_ids_grow_execute d q d' rs :
  db_execute P d q = Ret (d', rs) -> topic_ids_grow d d'.
Proof.
  destruct q as [id name|name id|table topic_id ts data data'
                |topic_id meta_data| | |q]; cbn [db_execute];
    try (intros [= <- _]; by apply topic_ids_grow_same).
  - intros [= <- _]. unfold topic_ids_grow. cbn [tbl_topic].
    destruct (insert_or_keep_grows id name (tbl_topic d))
      as [(more & _ & H) N].
    split; [by eexists | done].
  - intros [= <- _]. unfold topic_ids_grow. cbn [tbl_topic].
    rewrite update_name_ids. split; [|done].
    exists []. by rewrite app_nil_r.
  - destruct (tbl_data d !! table); [|discriminate].
    intros [= <- _]. by apply topic_ids_grow_same.
  - destruct (run_select P d q) as [rows|e]; [|discriminate].
    intros [= <- _]. by apply topic_ids_grow_same.
Qed.

End Tables.

(** ** A relation kept by each step is kept by the whole call *)

Section Calls.
Context (P : Platform) (R : state -> state -> Prop).
Hypothesis R_refl : forall st, R st st.
Hypothesis R_trans : forall a b c, R a b -> R b c -> R a c.

Lemma moves_for_each_in {A} (l : list A) (body : A -> M unit) :
  (forall x, x ∈ l -> moves R (body x)) -> moves R (for_each l body).
Proof.
  induction l as [|x l IH]; intros Hbody; cbn [for_each].
  - by apply moves_ret.
  - apply moves_bind; [done| |intros _].
    + apply Hbody. by left.
    + apply IH. intros y Hy. apply Hbody. by right.
Qed.

Lemma get_connection_moves :
  moves R client_connect ->
  (forall c, moves R (with_self (set_connection c))) ->
  moves R get_connection.
Proof.
  intros Hc Hs. unfold get_connection.
  split_moves R_refl R_trans ltac:(first [ apply Hc | apply Hs ]).
Qed.

Lemma publish_moves l :
  (forall c x, x ∈ l -> moves R (publish_point P c x)) ->
  moves R client_connect ->
  (forall c, moves R (with_self (set_connection c))) ->
  (forall c, moves R (conn_cursor c)) ->
  (forall c, moves R (cursor_close c)) ->
  moves R report_all_handled ->
  moves R (publish_to_historian P l).
Proof.
  intros Hpoint Hconn Hset Hcur Hclose Hack st.
  pose proof (publish_shape P l st) as Hs.
  pose proof (get_connection_moves Hconn Hset st) as Hg.
  destruct (get_connection st) as [[conn|e] st1]; cbn [snd] in Hg.
  - cbv zeta in Hs.
    pose proof (Hcur conn st1) as H2.
    pose proof (moves_for_each_in l (publish_point P (next_cursor (env st1)))
                  (Hpoint _) (snd (conn_cursor conn st1))) as H3.
    destruct (for_each l _ _) as [[[]|e] st3]; cbn [snd] in H3.
    + rewrite Hs. cbn [snd].
      eapply R_trans; [exact Hg|]. eapply R_trans; [exact H2|].
      eapply R_trans; [exact H3|]. eapply R_trans; [apply Hack|].
      apply Hclose.
    + assert (R st st3) as H4
        by (eapply R_trans; [exact Hg|]; eapply R_trans; [exact H2|]; done).
      destruct e; rewrite Hs; cbn [snd];
        (eapply R_trans; [exact H4|]);
        first [ apply Hclose
              | eapply R_trans; [apply Hset|]; apply Hclose ].
  - rewrite Hs. cbn [snd]. destruct e; try done.
    eapply R_trans; [exact Hg|]. apply Hset.
Qed.

End Calls.

Section OnDb.
Context (P : Platform) (R : database -> database -> Prop).
Hypothesis R_refl : forall d, R d d.
Hypothesis R_trans : forall a b c, R a b -> R b c -> R a c.
Hypothesis R_execute :
  forall d q d' rs, db_execute P d q = Ret (d', rs) -> R d d'.

Lemma on_db_refl st : on_db R st st.
Proof. apply R_refl. Qed.

Lemma on_db_trans a b c : on_db R a b -> on_db R b c -> on_db R a c.
Proof. apply R_trans. Qed.

Lemma on_db_execute c q : moves (on_db R) (cursor_execute P c q).
Proof.
  intros st. unfold cursor_execute, bind, network, on_db.
  destruct (outages (env st)) as [|[|] o]; cbn [snd env db];
    try apply R_refl;
    destruct (db_execute P (db (env st)) q) as [[d' rs]|e] eqn:E;
    cbn [snd env db]; first [ by eapply R_execute | apply R_refl ].
Qed.

Lemma on_db_with_self f : moves (on_db R) (with_self f).
Proof. intros st. apply R_refl. Qed.

Lemma on_db_client_connect : moves (on_db R) client_connect.
Proof. run_primitive; apply R_refl. Qed.

Lemma on_db_conn_cursor c : moves (on_db R) (conn_cursor c).
Proof. intros st. apply R_refl. Qed.

Lemma on_db_cursor_close c : moves (on_db R) (cursor_close c).
Proof. intros st. apply R_refl. Qed.

Lemma on_db_report_all_handled : moves (on_db R) report_all_handled.
Proof. intros st. apply R_refl. Qed.

Lemma on_db_publish_point c x : moves (on_db R) (publish_point P c x).
Proof.
  unfold publish_point, insert_data.
  split_moves on_db_refl on_db_trans
    ltac:(first [ apply on_db_execute | apply on_db_with_self ]).
Qed.

Lemma on_db_publish l : moves (on_db R) (publish_to_historian P l).
Proof.
  apply (publish_moves P (on_db R) on_db_refl on_db_trans).
  - intros c x _. apply on_db_publish_point.
  - apply on_db_client_connect.
  - intros c. apply on_db_with_self.
  - apply on_db_conn_cursor.
  - apply on_db_cursor_close.
  - apply on_db_report_all_handled.
Qed.

End OnDb.

Section IngestionTables.
Context (P : Platform).

(** X1: ingestion only appends to the category tables.  Whatever the batch
    and whatever fails on the way, every category table that was there
    before the call is still there, with the rows it had, unchanged and in
    their place, followed by the new ones. *)
Theorem ingestion_keeps_stored_rows l st :
  data_grows (db (env st)) (db (env (snd (publish_to_historian P l st)))).
Proof.
  apply (on_db_publish P data_grows data_grows_refl data_grows_trans
           (data_grows_execute P)).
Qed.

(** X2: ingestion keeps the keys of the category tables unique.  If no
    table has two rows under one (topic_id, ts) key before the call, none
    has after it, whatever the batch and whatever fails on the way. *)
Theorem ingestion_keeps_keys_unique l st :
  keys_unique (db (env st)) ->
  keys_unique (db (env (snd (publish_to_historian P l st)))).
Proof.
  apply (on_db_publish P (keeps keys_unique)); unfold keeps; auto.
  intros d q d' rs. apply keys_unique_execute.
Qed.

(** X3: ingestion never changes a stored metadata row.  After any batch the
    meta table starts with the rows it had, unchanged, and no topic id has
    got a second row: for a topic that already has a row, new metadata is
    not stored. *)
Theorem ingestion_keeps_stored_metadata l st :
  meta_grows (db (env st)) (db (env (snd (publish_to_historian P l st)))).
Proof.
  apply (on_db_publish P meta_grows meta_grows_refl meta_grows_trans
           (meta_grows_execute P)).
Qed.

Lemma update_name_lookup name id rows i r :
  rows !! i = Some r ->
  update_name name id rows !! i
  = Some (if String.eqb (fst r) id then (fst r, name) else r).
Proof.
  unfold update_name. revert i.
  induction rows as [|r0 rows IH]; intros [|i]; cbn; try done.
  - by intros [= ->].
  - apply IH.
Qed.

(** The loop body for a point whose folded name is cached under another
    spelling leaves the topic table with the name update applied, whatever
    else the point writes. *)
Lemma renaming_point_updates_name c x st name rows v :
  outages (env st) = [] ->
  tbl_data (db (env st)) !! table_of (source x) = Some rows ->
  coerce P (meta x) (value x) = Ret v ->
  _topic_name_map (self st) !! lower (topic x) = Some name ->
  name <> topic x ->
  fst (publish_point P c x st) = Ret tt
  /\ tbl_topic (db (env (snd (publish_point P c x st))))
     = update_name (topic x) (topic_id_of P (topic x))
         (tbl_topic (db (env st))).
Proof.
  destruct st as [h [d o cl nc ncur oc tr ak]].
  cbn [env self outages db]. intros -> Hrows Hv Hname Hne.
  apply String.eqb_neq in Hne.
  unfold publish_point. rewrite Hv.
  cbv [bind lift get_self with_self insert_data cursor_execute network ret].
  cbn [self env outages db _topic_name_map].
  rewrite Hname, Hne. cbn [negb].
  cbn [db_execute tbl_data tbl_topic tbl_meta env self db outages trace].
  rewrite Hrows.
  cbn [self set_topic_name _topic_meta].
  match goal with
  | |- context [meta_differs ?a ?b ?c ?e] => destruct (meta_differs a b c e)
  end;
    cbn [db_execute tbl_data tbl_topic tbl_meta env self db outages trace
         fst snd];
    split; reflexivity.
Qed.

(** X4: ingestion never removes a topic, and a rename updates the name in
    place.  After any batch the topic table lists the ids it had, in their
    order, followed by the new ones, and no id has got a second row.  And
    when the loop body runs for a point whose folded name is cached under
    another spelling, with the service reachable, the category table present
    and the value coercible, it returns and the topic table is afterwards the
    one before with the name update applied: the same ids at the same
    positions, every row under the point's id now carrying the point's
    spelling, and every other row as it was. *)
Theorem ingestion_keeps_topic_ids :
  (forall l st,
      topic_ids_grow (db (env st))
        (db (env (snd (publish_to_historian P l st)))))
  /\ (forall c x st name rows v,
        outages (env st) = [] ->
        tbl_data (db (env st)) !! table_of (source x) = Some rows ->
        coerce P (meta x) (value x) = Ret v ->
        _topic_name_map (self st) !! lower (topic x) = Some name ->
        name <> topic x ->
        let id := topic_id_of P (topic x) in
        let before := tbl_topic (db (env st)) in
        let after := tbl_topic (db (env (snd (publish_point P c x st)))) in
        fst (publish_point P c x st) = Ret tt
        /\ after = update_name (topic x) id before
        /\ map fst after = map fst before
        /\ (forall i r,
              before !! i = Some r ->
              after !! i
              = Some (if String.eqb (fst r) id then (fst r, topic x)
                      else r))).
Proof.
  split.
  - intros l st.
    apply (on_db_publish P topic_ids_grow topic_ids_grow_refl
             topic_ids_grow_trans (topic_ids_grow_execute P)).
  - intros c x st name rows v Ho Hrows Hv Hname Hne. cbv zeta.
    destruct (renaming_point_updates_name c x st name rows v)
      as [Hret Htbl]; try done.
    rewrite Htbl. repeat split.
    + done.
    + apply update_name_ids.
    + intros i r. apply update_name_lookup.
Qed.

End IngestionTables.

(** ** How a batch ends *)

Section Outcomes.
Context (P : Platform).

Lemma same_connection_refl st : same_connection st st.
Proof. reflexivity. Qed.

Lemma same_connection_trans a b c :
  same_connection a b -> same_connection b c -> same_connection a c.
Proof. unfold same_connection. congruence. Qed.

Lemma publish_point_same_connection c x :
  moves same_connection (publish_point P c x).
Proof.
  unfold publish_point, insert_data.
  split_moves same_connection_refl same_connection_trans
    ltac:(first [ by run_primitive | by intros ? ]).
Qed.

Lemma get_connection_returns st c st1 :
  get_connection st = (Ret c, st1) -> _connection (self st1) = Some c.
Proof.
  unfold get_connection, bind, get_self.
  destruct (_connection (self st)) as [c0|] eqn:E.
  - by intros [= <- <-].
  - unfold client_connect, bind, network.
    destruct (outages (env st)) as [|[|] o]; cbn; try discriminate;
      by intros [= <- <-].
Qed.

(** X5: what the caller can tell from a call.  A batch is acknowledged at
    most once.  When the call returns, either the batch was acknowledged
    and a connection is cached, or it was not acknowledged and no connection
    is cached; when the call raises, the batch was not acknowledged. *)
Theorem publish_outcomes l st :
  let st' := snd (publish_to_historian P l st) in
  match fst (publish_to_historian P l st) with
  | Ret _ =>
      (acks (env st') = S (acks (env st))
       /\ is_Some (_connection (self st')))
      \/ (acks (env st') = acks (env st) /\ _connection (self st') = None)
  | Raise _ => acks (env st') = acks (env st)
  end.
Proof.
  cbv zeta.
  pose proof (publish_shape P l st) as Hs.
  pose proof (get_connection_same_acks st) as Ha.
  pose proof (get_connection_returns st) as Hr.
  destruct (get_connection st) as [[conn|e] st1]; cbn [snd] in Ha.
  - specialize (Hr conn st1 eq_refl). cbv zeta in Hs.
    pose proof (loop_same_acks P (next_cursor (env st1)) l
                  (snd (conn_cursor conn st1))) as Hla.
    pose proof (moves_for_each _ same_connection_refl same_connection_trans
                  l _ (publish_point_same_connection (next_cursor (env st1)))
                  (snd (conn_cursor conn st1))) as Hlc.
    destruct (for_each l _ _) as [[[]|e] st3]; cbn [snd] in Hla, Hlc;
      [|destruct e]; rewrite Hs; cbn [fst snd];
      unfold same_acks, same_connection in *; cbn in *;
      try congruence.
    + left. split; [congruence|]. rewrite Hlc, Hr. by eexists.
    + right. split; [congruence|done].
  - rewrite Hs. cbn [fst snd]. unfold same_acks in Ha.
    destruct e; cbn; congruence.
Qed.

(** X6: the cursor of a batch never outlives the call.  When the open
    cursors are among those handed out so far, the call leaves the same
    cursors open as it found, on every way out, and has taken at most one
    new cursor. *)
Theorem publish_leaves_no_cursor_open l st :
  Forall (fun c => (c < next_cursor (env st))%nat) (open_cursors (env st)) ->
  let st' := snd (publish_to_historian P l st) in
  open_cursors (env st') = open_cursors (env st)
  /\ (next_cursor (env st') = next_cursor (env st)
      \/ next_cursor (env st') = S (next_cursor (env st))).
Proof.
  intros Hlt. cbv zeta. split; [by apply publish_releases_its_cursor|].
  pose proof (publish_shape P l st) as Hs.
  pose proof (get_connection_same_cursors st) as [_ Hc].
  destruct (get_connection st) as [[conn|e] st1]; cbn [snd] in Hc.
  - cbv zeta in Hs.
    pose proof (loop_same_cursors P (next_cursor (env st1)) l
                  (snd (conn_cursor conn st1))) as [_ Hl].
    destruct (for_each l _ _) as [[[]|e] st3]; cbn [snd] in Hl;
      [|destruct e]; rewrite Hs; cbn in *; right; congruence.
  - rewrite Hs. left. destruct e; cbn; congruence.
Qed.

Lemma for_each_app {A} (l1 l2 : list A) (body : A -> M unit) st :
  for_each (l1 ++ l2) body st
  = bind (for_each l1 body) (fun _ => for_each l2 body) st.
Proof.
  revert st. induction l1 as [|x l1 IH]; intros st; [reflexivity|].
  cbn [app for_each]. unfold bind.
  destruct (body x st) as [[[]|e] st1]; [|reflexivity].
  rewrite IH. reflexivity.
Qed.

Lemma publish_point_coerce_raises c x st e :
  coerce P (meta x) (value x) = Raise e ->
  publish_point P c x st = (Raise e, st).
Proof. intros H. unfold publish_point. by rewrite H. Qed.

(** X7: a point whose value cannot be coerced ends the batch.  The error
    of [int] or [float] is raised to the caller; the points before it have
    been processed and what they stored stays, the points after it are not
    processed, the batch is not acknowledged and the cursor is closed. *)
Theorem failing_point_ends_batch l1 x l2 st conn st1 st3 e :
  get_connection st = (Ret conn, st1) ->
  for_each l1 (publish_point P (next_cursor (env st1)))
    (snd (conn_cursor conn st1)) = (Ret tt, st3) ->
  coerce P (meta x) (value x) = Raise e ->
  e <> ConnectionError ->
  publish_to_historian P (l1 ++ x :: l2) st
  = (Raise e, snd (cursor_close (next_cursor (env st1)) st3))
  /\ acks (env (snd (cursor_close (next_cursor (env st1)) st3)))
     = acks (env st).
Proof.
  intros Hg Hl Hx Hne.
  pose proof (publish_shape P (l1 ++ x :: l2) st) as Hs.
  pose proof (get_connection_same_acks st) as Ha.
  pose proof (loop_same_acks P (next_cursor (env st1)) l1
                (snd (conn_cursor conn st1))) as Hla.
  rewrite Hg in Hs, Ha. rewrite Hl in Hla. cbv zeta in Hs.
  rewrite for_each_app in Hs. unfold bind in Hs. rewrite Hl in Hs.
  cbn [for_each] in Hs. unfold bind in Hs.
  rewrite (publish_point_coerce_raises _ _ _ _ Hx) in Hs.
  split.
  - by destruct e.
  - unfold same_acks in *. cbn in *. congruence.
Qed.

End Outcomes.

(** ** What a batch sends *)

Lemma sends_only_mono (Q Q' : statement -> Prop) st st' :
  (forall q, Q q -> Q' q) -> sends_only Q st st' -> sends_only Q' st st'.
Proof.
  intros HQ (evs & E & F). exists evs. split; [done|].
  eapply Forall_impl; [exact F|]. intros []; auto.
Qed.

(** Settles a call that sends no statement. *)
Ltac sends_nothing :=
  run_primitive;
  first [ exists []; split; [reflexivity | constructor]
        | eexists [_]; split; [reflexivity | by repeat constructor] ].

Section Sent.
Context (P : Platform).

Lemma connect_sends_only Q : moves (sends_only Q) client_connect.
Proof. sends_nothing. Qed.

Lemma cursor_sends_only Q c : moves (sends_only Q) (conn_cursor c).
Proof.
  intros st. eexists [_]. split; [reflexivity | by repeat constructor].
Qed.

Lemma close_sends_only Q c : moves (sends_only Q) (cursor_close c).
Proof.
  intros st. eexists [_]. split; [reflexivity | by repeat constructor].
Qed.

Lemma report_sends_only Q : moves (sends_only Q) report_all_handled.
Proof.
  intros st. eexists [_]. split; [reflexivity | by repeat constructor].
Qed.

(** X8: a batch only writes, and only about its own topics.  Every
    statement sent during the call, whatever fails on the way, is an insert
    or update that names the id of the topic of one of the batch's points;
    nothing is read from the service. *)
Theorem publish_sends_only_writes_of_batch l st :
  sends_only (fun q => exists x, x ∈ l
                                 /\ about_topic (topic_id_of P (topic x)) q)
    st (snd (publish_to_historian P l st)).
Proof.
  apply (publish_moves P _ (sends_only_refl _) (sends_only_trans _)).
  - intros c x Hx st'.
    eapply sends_only_mono; [|apply publish_point_sends_only].
    intros q Hq. by exists x.
  - apply connect_sends_only.
  - intros c. apply with_self_sends_only.
  - apply cursor_sends_only.
  - apply close_sends_only.
  - apply report_sends_only.
Qed.

Lemma table_of_canonical s : table_of (table_of s) = table_of s.
Proof.
  unfold table_of.
  destruct (s =? "scrape")%string eqn:E1; [reflexivity|].
  destruct (s =? "log")%string eqn:E2; [reflexivity|].
  by rewrite E1, E2.
Qed.

Lemma publish_point_canonical c x st :
  publish_point P c (canonical x) st = publish_point P c x st.
Proof.
  unfold publish_point, canonical.
  cbn [timestamp source topic value meta].
  by rewrite table_of_canonical.
Qed.

Lemma for_each_canonical c l st :
  for_each (map canonical l) (publish_point P c) st
  = for_each l (publish_point P c) st.
Proof.
  revert st. induction l as [|x l IH]; intros st; [reflexivity|].
  cbn [map for_each]. unfold bind. rewrite publish_point_canonical.
  destruct (publish_point P c x st) as [[[]|e] st1]; [apply IH | reflexivity].
Qed.

(** X9: the source of a point matters only through the category it is
    stored under.  The category of a source is never an alias itself
    (normalising twice changes nothing), and a batch in which every source
    is replaced by its category behaves exactly like the batch itself: a
    point tagged scrape is treated as one tagged device, one tagged log as
    one tagged datalogger. *)
Theorem source_matters_through_category_only l st :
  (forall s, table_of (table_of s) = table_of s)
  /\ publish_to_historian P (map canonical l) st
     = publish_to_historian P l st.
Proof.
  split; [apply table_of_canonical|].
  unfold publish_to_historian, publish_try.
  destruct (get_connection st) as [[conn|e] st1]; [|reflexivity].
  destruct (conn_cursor conn st1) as [[cursor|e] st2]; [|reflexivity].
  unfold bind. by rewrite for_each_canonical.
Qed.

Lemma names_fold_insert m t :
  names_fold m -> names_fold (<[lower t := t]> m).
Proof.
  intros H k v. destruct (decide (k = lower t)) as [->|Hne].
  - rewrite lookup_insert_eq. by intros [= <-].
  - rewrite lookup_insert_ne by done. apply H.
Qed.

Lemma names_kept_when_same st st' :
  _topic_name_map (self st') = _topic_name_map (self st) ->
  keeps (fun st => names_fold (_topic_name_map (self st))) st st'.
Proof. unfold keeps. by intros ->. Qed.

Lemma names_kept_trans a b c :
  keeps (fun st => names_fold (_topic_name_map (self st))) a b ->
  keeps (fun st => names_fold (_topic_name_map (self st))) b c ->
  keeps (fun st => names_fold (_topic_name_map (self st))) a c.
Proof. unfold keeps. auto. Qed.

Lemma execute_keeps_names c q :
  moves (keeps (fun st => names_fold (_topic_name_map (self st))))
        (cursor_execute P c q).
Proof.
  intros st. apply names_kept_when_same. revert st.
  run_primitive; reflexivity.
Qed.

Lemma connect_keeps_names :
  moves (keeps (fun st => names_fold (_topic_name_map (self st))))
        client_connect.
Proof.
  intros st. apply names_kept_when_same. revert st.
  run_primitive; reflexivity.
Qed.

Lemma publish_point_names_fold c x :
  moves (keeps (fun st => names_fold (_topic_name_map (self st))))
        (publish_point P c x).
Proof.
  unfold publish_point, insert_data.
  split_moves (fun st => names_kept_when_same st st eq_refl)
              names_kept_trans
    ltac:(first [ apply execute_keeps_names
                | intros ? ?; by apply names_fold_insert
                | intros ?; by apply names_kept_when_same ]).
Qed.

(** X10: the name map keeps mapping folded names to spellings of them.  If
    every entry of [_topic_name_map] maps a key to a name whose folded form
    is that key, the same holds after any batch, whatever fails on the
    way. *)
Theorem publish_keeps_names_folded l st :
  names_fold (_topic_name_map (self st)) ->
  names_fold (_topic_name_map (self (snd (publish_to_historian P l st)))).
Proof.
  apply (publish_moves P
           (keeps (fun st => names_fold (_topic_name_map (self st))))
           (fun st => names_kept_when_same st st eq_refl) names_kept_trans).
  - intros c x _. apply publish_point_names_fold.
  - apply connect_keeps_names.
  - intros c st'. by apply names_kept_when_same.
  - intros c st'. by apply names_kept_when_same.
  - intros c st'. by apply names_kept_when_same.
  - intros st'. by apply names_kept_when_same.
Qed.

End Sent.

Section PointStatements.
Context (P : Platform).

(** X11: what one point sends, and in which order.  With the service
    reachable, the category table present and the value coercible, the loop
    body returns after sending, in this order: the topic insert when the
    folded name is not in [_topic_name_map], or the update of the name when
    it is there with another spelling, or nothing when the spelling is the
    same; the data insert with the coerced value; and the metadata insert
    when the guard of the metadata write holds.  The name map then holds
    the point's spelling under the folded name, and the metadata cache the
    point's metadata when the insert was sent. *)
Theorem point_statements c x st rows v :
  let id := topic_id_of P (topic x) in
  let topic_part :=
    match _topic_name_map (self st) !! lower (topic x) with
    | None => [EExecute c (InsertTopic id (topic x))]
    | Some name => if String.eqb name (topic x) then []
                   else [EExecute c (UpdateTopicName (topic x) id)]
    end in
  let differs :=
    meta_differs P (default [] (_topic_meta (self st) !! id)) id (meta x) in
  outages (env st) = [] ->
  tbl_data (db (env st)) !! table_of (source x) = Some rows ->
  coerce P (meta x) (value x) = Ret v ->
  exists st',
    publish_point P c x st = (Ret tt, st')
    /\ trace (env st')
       = ((if differs then [EExecute c (InsertMeta id (dumps P (meta x)))]
           else [])
          ++ [EExecute c (InsertData (table_of (source x)) id
                            (format_timestamp P (timestamp x)) v v)]
          ++ topic_part ++ trace (env st))%list
    /\ _topic_name_map (self st')
       = <[lower (topic x) := topic x]> (_topic_name_map (self st))
    /\ _topic_meta (self st')
       = (if differs then <[id := meta x]> (_topic_meta (self st))
          else _topic_meta (self st)).
Proof.
  destruct st as [h [d o cl nc ncur oc tr ak]].
  cbn [env self outages db trace]. cbv zeta.
  intros -> Hrows Hv.
  unfold publish_point. rewrite Hv.
  cbv [bind lift get_self with_self insert_data cursor_execute network ret].
  cbn [self env outages db _topic_name_map].
  destruct (_topic_name_map h !! lower (topic x)) as [name|] eqn:En;
    [destruct (String.eqb name (topic x)) eqn:Ee; cbn [negb]|];
    cbn [db_execute tbl_data tbl_topic tbl_meta env self db outages trace];
    rewrite Hrows;
    cbn [self set_topic_name _topic_meta];
    match goal with
    | |- context [meta_differs ?a ?b ?c ?e] => destruct (meta_differs a b c e)
    end;
    cbn [db_execute tbl_data tbl_topic tbl_meta env self db outages trace];
    eexists; (split; [reflexivity|]);
    cbn [env self trace set_topic_meta set_topic_name _topic_name_map
         _topic_meta app];
    repeat split; try reflexivity.
  all: symmetry; apply insert_id; apply String.eqb_eq in Ee; by subst.
Qed.

End PointStatements.

(** ** The connection *)

(** X12: [get_connection] connects once and then hands out the cached
    connection.  When it returns, the connection it returns is the cached
    one, and calling it again returns the same connection without touching
    anything, whether the service is reachable or not; with a connection
    cached it does nothing at all.  When it raises, no connection was
    cached, and none is cached afterwards. *)
Theorem get_connection_caches st :
  match get_connection st with
  | (Ret c, st1) =>
      _connection (self st1) = Some c
      /\ get_connection st1 = (Ret c, st1)
      /\ (is_Some (_connection (self st)) -> st1 = st)
  | (Raise e, st1) =>
      _connection (self st) = None
      /\ self st1 = self st
  end.
Proof.
  unfold get_connection at 1. unfold bind at 1, get_self at 1.
  destruct (_connection (self st)) as [c0|] eqn:E.
  - cbn [ret]. repeat split.
    + done.
    + unfold get_connection, bind, get_self. by rewrite E.
  - unfold client_connect, bind, network.
    destruct (outages (env st)) as [|[|] o]; cbn; repeat split;
      by intros [? [=]].
Qed.

(** ** Queries that reach the service *)

Section Scans.
Context (P : Platform).

(** A query on a registered topic without a pair of bounds comes down to
    one statement on a cursor of the cached connection. *)
Lemma query_run st topic topic_id start end_ agg_type agg_period skip count
    order :
  one_bound_at_most P start end_ ->
  str_in (split_head topic) categories = true ->
  _topic_id_map (self st) !! strip_category (split_head topic) topic
  = Some topic_id ->
  query_historian P topic start end_ agg_type agg_period skip count order st
  = (let* conn := get_connection in
     let* cursor := conn_cursor conn in
     let* rows :=
       cursor_execute P cursor
         (SelectData (scan_request (split_head topic) topic_id skip count
                        order)) in
     ret {| values :=
              match rows with
              | DataRows l => map (fun row => (row_ts row, row_result row)) l
              | _ => []
              end;
            metadata := [] |}) st.
Proof.
  intros Hb Hcat Hmap. unfold query_historian.
  rewrite Hcat. cbn [negb]. unfold bind at 1, get_self at 1.
  rewrite Hmap.
  destruct start as [s|], end_ as [e|]; cbn in Hb; try done;
    try (destruct Hb as [t Ht]; rewrite Ht); reflexivity.
Qed.

Lemma read_only_refl st : read_only st st.
Proof. by repeat split. Qed.

Lemma read_only_trans a b c : read_only a b -> read_only b c -> read_only a c.
Proof.
  unfold read_only. intros (?&?&?&?&?) (?&?&?&?&?).
  repeat split; congruence.
Qed.

Lemma select_read_only c q :
  moves read_only (cursor_execute P c (SelectData q)).
Proof.
  intros st. unfold cursor_execute, bind, network.
  destruct (outages (env st)) as [|[|] o]; cbn [db_execute];
    try destruct (run_select P _ q); cbn; by repeat split.
Qed.

Lemma get_connection_read_only : moves read_only get_connection.
Proof.
  apply (get_connection_moves _ read_only_refl read_only_trans).
  - run_primitive; by repeat split.
  - intros c st. by repeat split.
Qed.

(** X13: a query changes nothing it reads.  Whatever its arguments and
    whatever fails, [query_historian] leaves the database, the topic maps,
    the metadata cache and the acknowledgments as they were; only the
    connection, the cursors and the trace can differ. *)
Theorem query_is_read_only st topic start end_ agg_type agg_period skip count
    order :
  read_only st
    (snd (query_historian P topic start end_ agg_type agg_period skip count
            order st)).
Proof.
  revert st.
  change (moves read_only
            (query_historian P topic start end_ agg_type agg_period skip
               count order)).
  unfold query_historian.
  split_moves read_only_refl read_only_trans
    ltac:(first [ apply select_read_only
                | apply get_connection_read_only
                | intros ?; apply read_only_refl ]).
Qed.

(** X14: a query never closes its cursor.  On a registered topic, without a
    pair of bounds and with a connection at hand, the query takes one new
    cursor and leaves it open, whether the statement succeeds or raises. *)
Theorem query_leaves_cursor_open st topic topic_id start end_ agg_type
    agg_period skip count order conn st1 :
  one_bound_at_most P start end_ ->
  str_in (split_head topic) categories = true ->
  _topic_id_map (self st) !! strip_category (split_head topic) topic
  = Some topic_id ->
  get_connection st = (Ret conn, st1) ->
  let st' :=
    snd (query_historian P topic start end_ agg_type agg_period skip count
           order st) in
  open_cursors (env st') = next_cursor (env st1) :: open_cursors (env st1)
  /\ next_cursor (env st') = S (next_cursor (env st1)).
Proof.
  intros Hb Hcat Hmap Hg. cbv zeta.
  rewrite (query_run _ _ topic_id) by done.
  unfold bind. rewrite Hg.
  unfold conn_cursor, cursor_execute, bind, network. cbn [env outages].
  destruct (outages (env st1)) as [|[|] o]; cbn [db_execute env db];
    try match goal with
        | |- context [run_select ?a ?b ?c] => destruct (run_select a b c)
        end; cbn; by split.
Qed.

(** X15: what a query returns.  On a registered topic, without a pair of
    bounds and with the service reachable, the query sends one SELECT that
    names the topic id only, with the order, limit and offset texts built
    from its arguments, and returns the engine's rows in the engine's
    order, each cut down to (timestamp, value); an error of the engine is
    raised to the caller. *)
Theorem query_returns_engine_rows st topic topic_id start end_ agg_type
    agg_period skip count order :
  one_bound_at_most P start end_ ->
  str_in (split_head topic) categories = true ->
  _topic_id_map (self st) !! strip_category (split_head topic) topic
  = Some topic_id ->
  outages (env st) = [] ->
  fst (query_historian P topic start end_ agg_type agg_period skip count
         order st)
  = match run_select P (db (env st))
            (scan_request (split_head topic) topic_id skip count order) with
    | Ret rows =>
        Ret {| values := map (fun row => (row_ts row, row_result row)) rows;
               metadata := [] |}
    | Raise e => Raise e
    end.
Proof.
  intros Hb Hcat Hmap Ho.
  rewrite (query_run _ _ topic_id) by done.
  destruct st as [h [d o cl nc ncur oc tr ak]]. cbn [env outages] in Ho.
  subst o. unfold get_connection.
  cbv [bind get_self client_connect network with_self ret conn_cursor
       cursor_execute].
  cbn [self env outages db]. destruct (_connection h) as [conn|];
    cbn [self env outages db db_execute];
    destruct (run_select P d _); reflexivity.
Qed.

(** X16: a query does not hide a lost connection, and keeps it cached.
    With a connection cached and the service unreachable, a query on a
    registered topic that gives at most one of start and end, and that one
    well-formed, raises ConnectionError to its caller and leaves the cached
    connection in place.  (With both bounds given, or with a malformed one,
    the query raises before it reaches the service.) *)
Theorem query_raises_connection_error st topic topic_id start end_ agg_type
    agg_period skip count order conn o :
  one_bound_at_most P start end_ ->
  str_in (split_head topic) categories = true ->
  _topic_id_map (self st) !! strip_category (split_head topic) topic
  = Some topic_id ->
  _connection (self st) = Some conn ->
  outages (env st) = true :: o ->
  let r := query_historian P topic start end_ agg_type agg_period skip count
             order st in
  fst r = Raise ConnectionError
  /\ _connection (self (snd r)) = Some conn
  /\ outages (env (snd r)) = o.
Proof.
  intros Hb Hcat Hmap Hc Ho. cbv zeta.
  rewrite (query_run _ _ topic_id) by done.
  destruct st as [h [d o' cl nc ncur oc tr ak]].
  cbn [env self outages] in Ho, Hc. subst o'. unfold get_connection.
  cbv [bind get_self client_connect network with_self ret conn_cursor
       cursor_execute].
  cbn [self env outages db]. rewrite Hc. cbn. by repeat split.
Qed.

End Scans.

(** ** The category prefix of a queried topic *)

Lemma split_head_join cat rest :
  no_slash cat = true -> split_head (cat ++ "/" ++ rest) = cat.
Proof.
  induction cat as [|c cat IH]; [reflexivity|].
  cbn [no_slash]. intros [Hc Hr]%andb_true_iff. apply negb_true_iff in Hc.
  change (split_head (String c (cat ++ "/" ++ rest)) = String c cat).
  cbn [split_head]. rewrite Hc. by rewrite IH.
Qed.

Lemma drop_prefix_join cat rest :
  drop_prefix (String.length cat + 1) (cat ++ "/" ++ rest) = rest.
Proof. induction cat as [|c cat IH]; [reflexivity|]. exact IH. Qed.

Lemma split_head_whole s : no_slash s = true -> split_head s = s.
Proof.
  induction s as [|c s IH]; [reflexivity|].
  cbn [no_slash split_head].
  intros [Hc Hr]%andb_true_iff. apply negb_true_iff in Hc.
  rewrite Hc. by rewrite IH.
Qed.

Lemma drop_prefix_whole s : drop_prefix (String.length s + 1) s = "".
Proof. induction s as [|c s IH]; [reflexivity|]. exact IH. Qed.

(** X17: how a queried topic is taken apart.  For a category written
    without a slash, the topic "category/name" is read back as that
    category, and the name looked up in the topic map is "name" for the
    analysis and device categories and the whole "category/name" for any
    other; a topic that is a bare category without slash is looked up under
    the empty name for analysis and device. *)
Theorem category_prefix_round_trip cat name :
  no_slash cat = true ->
  split_head (cat ++ "/" ++ name) = cat
  /\ strip_category (split_head (cat ++ "/" ++ name)) (cat ++ "/" ++ name)
     = (if str_in cat ["analysis"; "device"] then name
        else cat ++ "/" ++ name)
  /\ split_head cat = cat
  /\ strip_category (split_head cat) cat
     = (if str_in cat ["analysis"; "device"] then "" else cat).
Proof.
  intros H. rewrite split_head_join, split_head_whole by done.
  unfold strip_category.
  rewrite drop_prefix_join, drop_prefix_whole. by repeat split.
Qed.

Lemma category_prefix_round_trip_witness :
  split_head ("device" ++ "/" ++ "building/ahu1/temp") = "device"
  /\ strip_category (split_head ("device" ++ "/" ++ "building/ahu1/temp"))
       ("device" ++ "/" ++ "building/ahu1/temp")
     = (if str_in "device" ["analysis"; "device"] then "building/ahu1/temp"
        else "device" ++ "/" ++ "building/ahu1/temp")
  /\ split_head "device" = "device"
  /\ strip_category (split_head "device") "device"
     = (if str_in "device" ["analysis"; "device"] then "" else "device").
Proof.
  apply (category_prefix_round_trip "device" "building/ahu1/temp").
  reflexivity.
Defined.

(** ** Loading the maps at startup *)

Lemma lower_char_idempotent c : lower_char (lower_char c) = lower_char c.
Proof. destruct c as [[] [] [] [] [] [] [] []]; reflexivity. Qed.

Lemma lower_idempotent s : lower (lower s) = lower s.
Proof.
  induction s as [|c s IH]; [reflexivity|].
  cbn [lower]. by rewrite lower_char_idempotent, IH.
Qed.

Lemma folded_keys_insert m t v :
  folded_keys m -> folded_keys (<[lower t := v]> m).
Proof.
  intros H k. destruct (decide (k = lower t)) as [->|Hne].
  - intros _. apply lower_idempotent.
  - rewrite lookup_insert_ne by done. apply H.
Qed.

Section Loading.
Context (P : Platform).

(** The loop of [_load_topic_map] over the rows of the topic table. *)
Lemma load_topic_rows (l : list (string * string)) st :
  exists h',
    for_each (map (fun r => (fst r, snd r, lower (snd r))) l)
      (fun row : string * string * string =>
         let '(r0, r1, r2) := row in
         with_self (set_topic_id r2 r0) ;;;
         with_self (set_topic_name r2 r1)) st
    = (Ret tt, {| self := h'; env := env st |})
    /\ _connection h' = _connection (self st)
    /\ _topic_meta h' = _topic_meta (self st)
    /\ (folded_keys (_topic_id_map (self st)) ->
        folded_keys (_topic_id_map h'))
    /\ (names_fold (_topic_name_map (self st)) ->
        names_fold (_topic_name_map h'))
    /\ (forall k, k ∉ map (fun r => lower (snd r)) l ->
          _topic_id_map h' !! k = _topic_id_map (self st) !! k
          /\ _topic_name_map h' !! k = _topic_name_map (self st) !! k)
    /\ (NoDup (map (fun r => lower (snd r)) l) ->
        forall id name, (id, name) ∈ l ->
          _topic_id_map h' !! lower name = Some id
          /\ _topic_name_map h' !! lower name = Some name).
Proof.
  revert st. induction l as [|[id0 name0] l IH]; intros st.
  - exists (self st). cbn [map for_each ret]. destruct st as [h w].
    repeat split; try done;
      intros; match goal with H : _ ∈ [] |- _ => by apply elem_of_nil in H end.
  - cbn [map for_each fst snd]. unfold bind at 1.
    cbv [bind with_self].
    cbn [self env].
    destruct (IH {| self := set_topic_name (lower name0) name0
                              (set_topic_id (lower name0) id0 (self st));
                    env := env st |})
      as (h' & E & Hc & Hm & Hf & Hn & Hout & Hin).
    cbn [self env set_topic_name set_topic_id _connection _topic_meta
         _topic_id_map _topic_name_map] in *.
    exists h'. split; [exact E|]. split; [done|]. split; [done|].
    split; [intros H; by apply Hf, folded_keys_insert|].
    split; [intros H; by apply Hn, names_fold_insert|].
    split.
    + intros k Hk. destruct (Hout k) as [-> ->].
      { intros H'. apply Hk. by right. }
      assert (lower name0 <> k) by (intros <-; apply Hk; by left).
      by rewrite !lookup_insert_ne.
    + intros [Hk Hnd]%NoDup_cons i n [[= -> ->]|Hl]%elem_of_cons.
      * destruct (Hout _ Hk) as [-> ->]. by rewrite !lookup_insert_eq.
      * by apply (Hin Hnd).
Qed.

(** X18: after startup every topic of the table is in both maps.  With a
    connection cached, the service reachable and no two rows of the topic
    table sharing a folded name, [_load_topic_map] returns, and for every
    row (id, name) of the table [_topic_id_map] holds the id and
    [_topic_name_map] the name under the folded name; the database is
    untouched and the metadata cache is as it was. *)
Theorem load_topic_map_round_trip st conn :
  _connection (self st) = Some conn ->
  outages (env st) = [] ->
  NoDup (map (fun r => lower (snd r)) (tbl_topic (db (env st)))) ->
  exists st',
    _load_topic_map P st = (Ret tt, st')
    /\ (forall id name, (id, name) ∈ tbl_topic (db (env st)) ->
          _topic_id_map (self st') !! lower name = Some id
          /\ _topic_name_map (self st') !! lower name = Some name)
    /\ db (env st') = db (env st)
    /\ _topic_meta (self st') = _topic_meta (self st).
Proof.
  intros Hc Ho Hnd. unfold _load_topic_map.
  unfold bind at 1, get_self at 1. rewrite Hc.
  destruct st as [h [d o cl nc ncur oc tr ak]]. cbn [env outages] in Ho.
  subst o. cbn [env db] in Hnd |- *.
  unfold bind at 1, conn_cursor. unfold bind at 1.
  unfold cursor_execute, bind at 1, network. cbn [env outages self db].
  cbn [db_execute]. unfold bind at 1.
  match goal with
  | |- context [for_each _ _ ?s] =>
      destruct (load_topic_rows (tbl_topic d) s)
        as (h' & E & _ & Hm & _ & _ & _ & Hin)
  end.
  rewrite E. cbn [cursor_close self env]. eexists. split; [reflexivity|].
  cbn [self env db] in *. split; [|by split].
  intros i n Hrow. by apply (Hin Hnd).
Qed.

Lemma bind_returns {A B} (m : M A) (k : A -> M B) st a st1 :
  m st = (Ret a, st1) -> bind m k st = k a st1.
Proof. intros H. unfold bind. by rewrite H. Qed.

Lemma bind_raises {A B} (m : M A) (k : A -> M B) st e st1 :
  m st = (Raise e, st1) -> bind m k st = (Raise e, st1).
Proof. intros H. unfold bind. by rewrite H. Qed.

Lemma execute_select_topics c st :
  match cursor_execute P c SelectTopics st with
  | (Ret rows, st2) =>
      rows = TopicRows (map (fun r => (fst r, snd r, lower (snd r)))
                            (tbl_topic (db (env st))))
      /\ self st2 = self st
  | (Raise e, st2) => self st2 = self st
  end.
Proof.
  unfold cursor_execute, bind, network.
  destruct (outages (env st)) as [|[|] o]; cbn; by repeat split.
Qed.

Lemma load_topic_map_folded st :
  (folded_keys (_topic_id_map (self st)) ->
   folded_keys (_topic_id_map (self (snd (_load_topic_map P st)))))
  /\ (names_fold (_topic_name_map (self st)) ->
      names_fold (_topic_name_map (self (snd (_load_topic_map P st))))).
Proof.
  destruct (_load_topic_map P st) as [r st'] eqn:E. cbn [snd].
  unfold _load_topic_map in E.
  rewrite (bind_returns get_self _ st _ _ eq_refl) in E.
  destruct (_connection (self st)) as [conn|].
  2: { injection E as <- <-. by split. }
  rewrite (bind_returns (conn_cursor conn) _ st _ _ eq_refl) in E.
  match type of E with
  | context [bind (cursor_execute P ?c SelectTopics) _ ?s] =>
      pose proof (execute_select_topics c s) as Hx;
      destruct (cursor_execute P c SelectTopics s) as [[rows|e] st2] eqn:Ex
  end.
  2: { rewrite (bind_raises _ _ _ _ _ Ex) in E. injection E as <- <-.
       rewrite Hx. by split. }
  destruct Hx as [-> Hself].
  rewrite (bind_returns _ _ _ _ _ Ex) in E. cbn [env db conn_cursor] in E.
  destruct (load_topic_rows (tbl_topic (db (env st))) st2)
    as (h' & El & _ & _ & Hf & Hn & _).
  rewrite (bind_returns _ _ _ _ _ El) in E. injection E as <- <-.
  cbn [self cursor_close] in *. rewrite Hself in Hf, Hn. by split.
Qed.

(** X19: loading keeps the keys of both maps folded.  Whatever the state
    and whatever fails, after [_load_topic_map] every key of
    [_topic_id_map] is in folded form if that was so before, and every
    entry of [_topic_name_map] maps a folded name to a spelling of it if
    that was so before. *)
Theorem load_topic_map_keeps_keys_folded st :
  (folded_keys (_topic_id_map (self st)) ->
   folded_keys (_topic_id_map (self (snd (_load_topic_map P st)))))
  /\ (names_fold (_topic_name_map (self st)) ->
      names_fold (_topic_name_map (self (snd (_load_topic_map P st))))).
Proof. apply load_topic_map_folded. Qed.

(** X20: a name with a capital letter is never resolved.  When the keys
    of [_topic_id_map] are folded (as with the empty map of a new process),
    then after [_load_topic_map] and any batch a query whose looked-up name
    is not in folded form returns the empty result, also for a topic that
    is stored under exactly that spelling. *)
Theorem capital_name_is_never_resolved st l topic start end_ agg_type
    agg_period skip count order :
  folded_keys (_topic_id_map (self st)) ->
  lower (strip_category (split_head topic) topic)
  <> strip_category (split_head topic) topic ->
  let st2 := snd (publish_to_historian P l (snd (_load_topic_map P st))) in
  query_historian P topic start end_ agg_type agg_period skip count order st2
  = (Ret {| values := []; metadata := [] |}, st2).
Proof.
  intros Hf Hne. cbv zeta. apply invalid_topic_gives_empty. right.
  rewrite (publish_same_topic_ids P l).
  destruct (load_topic_map_folded st) as [Hk _]. specialize (Hk Hf).
  destruct (_topic_id_map _ !! _) eqn:E; [|done].
  exfalso. apply Hne, Hk. by eexists.
Qed.

(** The loop of [_load_meta_map] over rows that all decode. *)
Lemma load_meta_rows (l : list (string * string)) st :
  Forall (fun r => exists m, loads P (snd r) = Ret m) l ->
  exists h',
    for_each l
      (fun row =>
         let* m := lift (loads P (snd row)) in
         with_self (set_topic_meta (fst row) m)) st
    = (Ret tt, {| self := h'; env := env st |})
    /\ _connection h' = _connection (self st)
    /\ _topic_id_map h' = _topic_id_map (self st)
    /\ _topic_name_map h' = _topic_name_map (self st)
    /\ (forall k, k ∉ map fst l ->
          _topic_meta h' !! k = _topic_meta (self st) !! k)
    /\ (NoDup (map fst l) ->
        forall id s, (id, s) ∈ l ->
          exists m, loads P s = Ret m /\ _topic_meta h' !! id = Some m).
Proof.
  intros Hdec. revert st.
  induction Hdec as [|[id0 s0] l [m0 Hm0] _ IH]; intros st.
  - exists (self st). cbn [for_each ret]. destruct st as [h w].
    split; [done|]. do 4 (split; [done|]).
    intros _ i s H. by apply elem_of_nil in H.
  - cbn [for_each fst snd] in *. unfold bind at 1. unfold bind at 1.
    rewrite Hm0. cbv [lift with_self]. cbn [self env].
    destruct (IH {| self := set_topic_meta id0 m0 (self st); env := env st |})
      as (h' & E & Hc & Hi & Hn & Hout & Hin).
    cbn [self env set_topic_meta _connection _topic_meta _topic_id_map
         _topic_name_map] in *.
    exists h'. split; [exact E|]. do 3 (split; [done|]). split.
    + intros k Hk. rewrite Hout by (intros H'; apply Hk; by right).
      apply lookup_insert_ne. intros ->. apply Hk. by left.
    + intros [Hk Hnd]%NoDup_cons i s [[= -> ->]|Hl]%elem_of_cons.
      * exists m0. split; [done|]. cbn [fst] in Hk. rewrite (Hout _ Hk).
        apply lookup_insert_eq.
      * by apply (Hin Hnd).
Qed.

Lemma execute_select_meta c st :
  outages (env st) = [] ->
  exists st2,
    cursor_execute P c SelectMeta st
    = (Ret (MetaRows (tbl_meta (db (env st)))), st2)
    /\ self st2 = self st
    /\ db (env st2) = db (env st)
    /\ open_cursors (env st2) = open_cursors (env st).
Proof.
  intros Ho. unfold cursor_execute, bind, network. rewrite Ho. cbn.
  eexists. by repeat split.
Qed.

(** X21: after startup the metadata of every topic is cached.  With a
    connection cached, the service reachable, every row of the meta table
    decodable and no topic id in two rows, [_load_meta_map] returns, and
    for every row the cache holds the decoded metadata under the row's
    topic id; the database and the topic maps are as they were. *)
Theorem load_meta_map_round_trip st conn :
  _connection (self st) = Some conn ->
  outages (env st) = [] ->
  Forall (fun r => exists m, loads P (snd r) = Ret m)
         (tbl_meta (db (env st))) ->
  NoDup (map fst (tbl_meta (db (env st)))) ->
  exists st',
    _load_meta_map P st = (Ret tt, st')
    /\ (forall id s, (id, s) ∈ tbl_meta (db (env st)) ->
          exists m, loads P s = Ret m
                    /\ _topic_meta (self st') !! id = Some m)
    /\ db (env st') = db (env st)
    /\ _topic_id_map (self st') = _topic_id_map (self st)
    /\ _topic_name_map (self st') = _topic_name_map (self st).
Proof.
  intros Hc Ho Hdec Hnd. unfold _load_meta_map.
  rewrite (bind_returns get_self _ st _ _ eq_refl). rewrite Hc.
  rewrite (bind_returns (conn_cursor conn) _ st _ _ eq_refl).
  destruct (execute_select_meta (next_cursor (env st))
              (snd (conn_cursor conn st)) Ho)
    as (st2 & Ex & Hself & Hdb & _).
  cbn [snd conn_cursor self env db] in *.
  rewrite (bind_returns _ _ _ _ _ Ex).
  destruct (load_meta_rows _ st2 Hdec) as (h' & E & _ & Hi & Hn & _ & Hin).
  rewrite (bind_returns _ _ _ _ _ E). cbn [cursor_close].
  eexists. split; [reflexivity|]. cbn [self env db].
  rewrite Hself in Hi, Hn. by repeat split; try apply (Hin Hnd).
Qed.

(** X22: one row that does not decode stops the loading.  With a
    connection cached and the service reachable, if the rows before it
    decode and the row (id, s) does not, [_load_meta_map] raises the
    decoder's error; its cursor is left open, and the metadata of the ids
    of the rows from that one on is not loaded. *)
Theorem load_meta_map_stops_at_bad_row st conn l1 id s l2 e :
  _connection (self st) = Some conn ->
  outages (env st) = [] ->
  tbl_meta (db (env st)) = (l1 ++ (id, s) :: l2)%list ->
  Forall (fun r => exists m, loads P (snd r) = Ret m) l1 ->
  loads P s = Raise e ->
  exists st',
    _load_meta_map P st = (Raise e, st')
    /\ open_cursors (env st')
       = next_cursor (env st) :: open_cursors (env st)
    /\ (forall k, k ∉ map fst l1 ->
          _topic_meta (self st') !! k = _topic_meta (self st) !! k).
Proof.
  intros Hc Ho Hrows Hdec Hbad. unfold _load_meta_map.
  rewrite (bind_returns get_self _ st _ _ eq_refl). rewrite Hc.
  rewrite (bind_returns (conn_cursor conn) _ st _ _ eq_refl).
  destruct (execute_select_meta (next_cursor (env st))
              (snd (conn_cursor conn st)) Ho)
    as (st2 & Ex & Hself & Hdb & Hoc).
  cbn [snd conn_cursor self env db open_cursors] in *.
  rewrite (bind_returns _ _ _ _ _ Ex). rewrite Hrows.
  destruct (load_meta_rows _ st2 Hdec) as (h' & E & _ & _ & _ & Hout & _).
  assert (for_each (l1 ++ (id, s) :: l2)
            (fun row =>
               let* m := lift (loads P (snd row)) in
               with_self (set_topic_meta (fst row) m)) st2
          = (Raise e, {| self := h'; env := env st2 |})) as Ef.
  { rewrite for_each_app. rewrite (bind_returns _ _ _ _ _ E).
    cbn [for_each fst snd]. unfold bind at 1. unfold bind at 1.
    by rewrite Hbad. }
  rewrite (bind_raises _ _ _ _ _ Ef).
  eexists. split; [reflexivity|]. cbn [self env]. split; [done|].
  intros k Hk. rewrite (Hout k Hk). by rewrite Hself.
Qed.

End Loading.

(** ** The theorems of this part at concrete inputs *)

Lemma started_keys_unique : keys_unique (db (env (Demo.started 200))).
Proof.
  intros table rows id ts H. unfold Demo.started in H.
  cbn [tbl_data db env] in H.
  apply lookup_singleton_Some in H as [_ <-].
  unfold key_count. cbn [List.filter].
  destruct (same_key id ts _); cbn [length]; lia.
Qed.

Lemma ingestion_keeps_keys_unique_witness :
  keys_unique
    (db (env (snd (publish_to_historian Demo.platform
                     [Demo.ahu1_temp 100; Demo.ahu1_temp 101]
                     (Demo.started 200))))).
Proof.
  apply (ingestion_keeps_keys_unique Demo.platform
           [Demo.ahu1_temp 100; Demo.ahu1_temp 101] (Demo.started 200)).
  apply started_keys_unique.
Defined.

Lemma publish_leaves_no_cursor_open_witness :
  open_cursors
    (env (snd (publish_to_historian Demo.platform
                 [Demo.ahu1_temp 100; Sample.not_a_number 101]
                 (Demo.started 200))))
  = open_cursors (env (Demo.started 200))
  /\ (next_cursor
        (env (snd (publish_to_historian Demo.platform
                     [Demo.ahu1_temp 100; Sample.not_a_number 101]
                     (Demo.started 200))))
      = next_cursor (env (Demo.started 200))
      \/ next_cursor
           (env (snd (publish_to_historian Demo.platform
                        [Demo.ahu1_temp 100; Sample.not_a_number 101]
                        (Demo.started 200))))
         = S (next_cursor (env (Demo.started 200)))).
Proof.
  apply (publish_leaves_no_cursor_open Demo.platform
           [Demo.ahu1_temp 100; Sample.not_a_number 101] (Demo.started 200)).
  constructor.
Defined.

Lemma failing_point_ends_batch_witness :
  publish_to_historian Demo.platform
    ([Demo.ahu1_temp 100] ++ Sample.not_a_number 101 :: [Demo.ahu1_temp 102])
    (Demo.started 200)
  = (Raise ValueError,
     snd (cursor_close (next_cursor (env (Demo.started 200)))
            (snd (for_each [Demo.ahu1_temp 100]
                    (publish_point Demo.platform
                       (next_cursor (env (Demo.started 200))))
                    (snd (conn_cursor 0 (Demo.started 200)))))))
  /\ acks (env (snd (cursor_close (next_cursor (env (Demo.started 200)))
                       (snd (for_each [Demo.ahu1_temp 100]
                               (publish_point Demo.platform
                                  (next_cursor (env (Demo.started 200))))
                               (snd (conn_cursor 0 (Demo.started 200))))))))
     = acks (env (Demo.started 200)).
Proof.
  apply (failing_point_ends_batch Demo.platform [Demo.ahu1_temp 100]
           (Sample.not_a_number 101) [Demo.ahu1_temp 102]
           (Demo.started 200) 0%nat (Demo.started 200)).
  - reflexivity.
  - vm_compute. reflexivity.
  - reflexivity.
  - discriminate.
Defined.

Lemma started_names_fold :
  names_fold (_topic_name_map (self (Demo.started 200))).
Proof.
  intros k v H. unfold Demo.started in H. cbn [_topic_name_map self] in H.
  by apply lookup_singleton_Some in H as [<- <-].
Qed.

Lemma publish_keeps_names_folded_witness :
  names_fold
    (_topic_name_map
       (self (snd (publish_to_historian Demo.platform
                     [Demo.ahu1_temp 100; Sample.not_a_number 101]
                     (Demo.started 200))))).
Proof.
  apply (publish_keeps_names_folded Demo.platform
           [Demo.ahu1_temp 100; Sample.not_a_number 101] (Demo.started 200)).
  apply started_names_fold.
Defined.

Lemma ingestion_keeps_topic_ids_witness :
  topic_ids_grow (db (env (Demo.started 200)))
    (db (env (snd (publish_to_historian Demo.platform
                     [{| timestamp := 101; source := "scrape";
                         topic := "Building/AHU1/Temp"; value := PStr "73";
                         meta := [("type", PStr "integer")] |}]
                     (Demo.started 200)))))
  /\ tbl_topic (db (env (Demo.started 200)))
     = [(Demo.digest "building/ahu1/temp", "building/ahu1/temp")]
  /\ tbl_topic
       (db (env (snd (publish_point Demo.platform 0
                        {| timestamp := 101; source := "scrape";
                           topic := "Building/AHU1/Temp"; value := PStr "73";
                           meta := [("type", PStr "integer")] |}
                        (Demo.started 200)))))
     = [(Demo.digest "building/ahu1/temp", "Building/AHU1/Temp")].
Proof.
  split; [apply (proj1 (ingestion_keeps_topic_ids Demo.platform))|].
  split; [reflexivity|].
  destruct (proj2 (ingestion_keeps_topic_ids Demo.platform) 0%nat
              {| timestamp := 101; source := "scrape";
                 topic := "Building/AHU1/Temp"; value := PStr "73";
                 meta := [("type", PStr "integer")] |}
              (Demo.started 200) "building/ahu1/temp"
              [{| row_topic_id := Demo.digest "building/ahu1/temp";
                  row_ts := "100";
                  row_result := PFloat (QArith_base.inject_Z 72) |}]
              (PInt 73))
    as (_ & Htbl & _).
  - reflexivity.
  - reflexivity.
  - reflexivity.
  - reflexivity.
  - discriminate.
  - rewrite Htbl. reflexivity.
Defined.

Lemma point_statements_witness :
  exists st',
    publish_point Demo.platform 0
      {| timestamp := 101; source := "scrape"; topic := "Building/AHU1/Temp";
         value := PStr "73"; meta := [("type", PStr "integer")] |}
      (Demo.started 200)
    = (Ret tt, st')
    /\ trace (env st')
       = [EExecute 0 (InsertMeta (Demo.digest "building/ahu1/temp")
                                 "{type: integer, }");
          EExecute 0 (InsertData "device" (Demo.digest "building/ahu1/temp")
                        "101" (PInt 73) (PInt 73));
          EExecute 0 (UpdateTopicName "Building/AHU1/Temp"
                        (Demo.digest "building/ahu1/temp"))]
    /\ _topic_name_map (self st')
       = <["building/ahu1/temp" := "Building/AHU1/Temp"]>
           (_topic_name_map (self (Demo.started 200)))
    /\ _topic_meta (self st')
       = <[Demo.digest "building/ahu1/temp" := [("type", PStr "integer")]]>
           (_topic_meta (self (Demo.started 200))).
Proof.
  apply (point_statements Demo.platform 0%nat
           {| timestamp := 101; source := "scrape";
              topic := "Building/AHU1/Temp"; value := PStr "73";
              meta := [("type", PStr "integer")] |}
           (Demo.started 200)
           [{| row_topic_id := Demo.digest "building/ahu1/temp";
               row_ts := "100";
               row_result := PFloat (QArith_base.inject_Z 72) |}]
           (PInt 73)).
  - reflexivity.
  - vm_compute. reflexivity.
  - reflexivity.
Defined.

Lemma query_leaves_cursor_open_witness :
  open_cursors
    (env (snd (query_historian Demo.platform "device/building/ahu1/temp"
                 (Some "150") None None None 0 (Some 1%Z) "FIRST_TO_LAST"
                 (Demo.started 200))))
  = next_cursor (env (Demo.started 200))
    :: open_cursors (env (Demo.started 200))
  /\ next_cursor
       (env (snd (query_historian Demo.platform "device/building/ahu1/temp"
                    (Some "150") None None None 0 (Some 1%Z) "FIRST_TO_LAST"
                    (Demo.started 200))))
     = S (next_cursor (env (Demo.started 200))).
Proof.
  apply (query_leaves_cursor_open Demo.platform (Demo.started 200)
           "device/building/ahu1/temp" (Demo.digest "building/ahu1/temp")
           (Some "150") None None None 0 (Some 1%Z) "FIRST_TO_LAST" 0%nat
           (Demo.started 200)).
  - by eexists.
  - reflexivity.
  - vm_compute. reflexivity.
  - reflexivity.
Defined.

Lemma query_returns_engine_rows_witness :
  fst (query_historian Demo.platform "device/building/ahu1/temp" None None
         None None 0 (Some 5%Z) "LAST_TO_FIRST" (Demo.started 200))
  = match Demo.select (db (env (Demo.started 200)))
            (scan_request "device" (Demo.digest "building/ahu1/temp") 0
               (Some 5%Z) "LAST_TO_FIRST") with
    | Ret rows =>
        Ret {| values := map (fun row => (row_ts row, row_result row)) rows;
               metadata := [] |}
    | Raise e => Raise e
    end.
Proof.
  apply (query_returns_engine_rows Demo.platform (Demo.started 200)
           "device/building/ahu1/temp" (Demo.digest "building/ahu1/temp")
           None None None None 0 (Some 5%Z) "LAST_TO_FIRST").
  - exact I.
  - reflexivity.
  - vm_compute. reflexivity.
  - reflexivity.
Defined.

Lemma query_raises_connection_error_witness :
  fst (query_historian Demo.platform "device/building/ahu1/temp" None None
         None None 0 (Some 1%Z) "FIRST_TO_LAST"
         (Sample.unreachable [true] (Demo.started 200)))
  = Raise ConnectionError
  /\ _connection
       (self (snd (query_historian Demo.platform "device/building/ahu1/temp"
                     None None None None 0 (Some 1%Z) "FIRST_TO_LAST"
                     (Sample.unreachable [true] (Demo.started 200)))))
     = Some O
  /\ outages
       (env (snd (query_historian Demo.platform "device/building/ahu1/temp"
                    None None None None 0 (Some 1%Z) "FIRST_TO_LAST"
                    (Sample.unreachable [true] (Demo.started 200)))))
     = [].
Proof.
  apply (query_raises_connection_error Demo.platform
           (Sample.unreachable [true] (Demo.started 200))
           "device/building/ahu1/temp" (Demo.digest "building/ahu1/temp")
           None None None None 0 (Some 1%Z) "FIRST_TO_LAST" 0%nat []).
  - exact I.
  - reflexivity.
  - vm_compute. reflexivity.
  - reflexivity.
  - reflexivity.
Defined.

Lemma load_topic_map_round_trip_witness :
  exists st',
    _load_topic_map Demo.platform
      {| self := set_connection (Some O) init_historian;
         env := env (Demo.started 200) |}
    = (Ret tt, st')
    /\ (forall id name,
          (id, name) ∈ tbl_topic (db (env (Demo.started 200))) ->
          _topic_id_map (self st') !! lower name = Some id
          /\ _topic_name_map (self st') !! lower name = Some name)
    /\ db (env st') = db (env (Demo.started 200))
    /\ _topic_meta (self st') = ∅.
Proof.
  apply (load_topic_map_round_trip Demo.platform
           {| self := set_connection (Some O) init_historian;
              env := env (Demo.started 200) |} 0%nat).
  - reflexivity.
  - reflexivity.
  - apply NoDup_singleton.
Defined.

Lemma load_topic_map_keeps_keys_folded_witness :
  (folded_keys (_topic_id_map (self (Demo.started 200))) ->
   folded_keys
     (_topic_id_map
        (self (snd (_load_topic_map Demo.platform (Demo.started 200))))))
  /\ (names_fold (_topic_name_map (self (Demo.started 200))) ->
      names_fold
        (_topic_name_map
           (self (snd (_load_topic_map Demo.platform (Demo.started 200)))))).
Proof.
  apply (load_topic_map_keeps_keys_folded Demo.platform (Demo.started 200)).
Defined.

Lemma started_folded_keys :
  folded_keys (_topic_id_map (self (Demo.started 200))).
Proof.
  intros k [v H]. unfold Demo.started in H. cbn [_topic_id_map self] in H.
  by apply lookup_singleton_Some in H as [<- _].
Qed.

Lemma capital_name_is_never_resolved_witness :
  query_historian Demo.platform "device/Building/AHU1/Temp" None None None
    None 0 (Some 1%Z) "FIRST_TO_LAST"
    (snd (publish_to_historian Demo.platform
            [{| timestamp := 101; source := "device";
                topic := "Building/AHU1/Temp"; value := PInt 73;
                meta := [] |}]
            (snd (_load_topic_map Demo.platform (Demo.started 200)))))
  = (Ret {| values := []; metadata := [] |},
     snd (publish_to_historian Demo.platform
            [{| timestamp := 101; source := "device";
                topic := "Building/AHU1/Temp"; value := PInt 73;
                meta := [] |}]
            (snd (_load_topic_map Demo.platform (Demo.started 200))))).
Proof.
  apply (capital_name_is_never_resolved Demo.platform (Demo.started 200)
           [{| timestamp := 101; source := "device";
               topic := "Building/AHU1/Temp"; value := PInt 73;
               meta := [] |}]
           "device/Building/AHU1/Temp").
  - apply started_folded_keys.
  - vm_compute. discriminate.
Defined.

Lemma load_meta_map_round_trip_witness :
  exists st',
    _load_meta_map Demo.platform
      (Sample.with_meta_rows [(Demo.digest "building/ahu1/temp", "{}")]
         (Demo.started 200))
    = (Ret tt, st')
    /\ (forall id s,
          (id, s) ∈ [(Demo.digest "building/ahu1/temp", "{}")] ->
          exists m, loads Demo.platform s = Ret m
                    /\ _topic_meta (self st') !! id = Some m)
    /\ db (env st')
       = db (env (Sample.with_meta_rows
                    [(Demo.digest "building/ahu1/temp", "{}")]
                    (Demo.started 200)))
    /\ _topic_id_map (self st') = _topic_id_map (self (Demo.started 200))
    /\ _topic_name_map (self st') = _topic_name_map (self (Demo.started 200)).
Proof.
  apply (load_meta_map_round_trip Demo.platform
           (Sample.with_meta_rows [(Demo.digest "building/ahu1/temp", "{}")]
              (Demo.started 200)) 0%nat).
  - reflexivity.
  - reflexivity.
  - repeat constructor. by exists [].
  - apply NoDup_singleton.
Defined.

Lemma load_meta_map_stops_at_bad_row_witness :
  exists st',
    _load_meta_map Demo.platform
      (Sample.with_meta_rows
         [(Demo.digest "a", "{}"); (Demo.digest "b", "{type: float, }");
          (Demo.digest "c", "{}")]
         (Demo.started 200))
    = (Raise ValueError, st')
    /\ open_cursors (env st') = [O]
    /\ (forall k, k ∉ map fst [(Demo.digest "a", "{}")] ->
          _topic_meta (self st') !! k
          = _topic_meta (self (Demo.started 200)) !! k).
Proof.
  apply (load_meta_map_stops_at_bad_row Demo.platform
           (Sample.with_meta_rows
              [(Demo.digest "a", "{}"); (Demo.digest "b", "{type: float, }");
               (Demo.digest "c", "{}")]
              (Demo.started 200))
           0%nat [(Demo.digest "a", "{}")] (Demo.digest "b")
           "{type: float, }" [(Demo.digest "c", "{}")] ValueError).
  - reflexivity.
  - reflexivity.
  - reflexivity.
  - repeat constructor. by exists [].
  - reflexivity.
Defined.

(** ** What an acknowledgment stands for *)

Lemma bind_inv {A B} (m : M A) (k : A -> M B) st b st' :
  bind m k st = (Ret b, st') ->
  exists a st1, m st = (Ret a, st1) /\ k a st1 = (Ret b, st').
Proof.
  unfold bind. destruct (m st) as [[a|e] st1]; [|discriminate].
  intros H. by exists a, st1.
Qed.

Section Acknowledged.
Context (P : Platform).

Lemma stored_grows d d' x : data_grows d d' -> stored P d x -> stored P d' x.
Proof.
  intros Hg (rows & Hrows & Hkey). destruct (Hg _ _ Hrows) as [more Hmore].
  exists (rows ++ more)%list. split; [done|].
  by rewrite existsb_app, Hkey.
Qed.

Lemma execute_insert_data_returns c table id ts v v' st rs st' :
  cursor_execute P c (InsertData table id ts v v') st = (Ret rs, st') ->
  exists rows,
    tbl_data (db (env st)) !! table = Some rows
    /\ tbl_data (db (env st'))
       = <[table := insert_data_row id ts v rows]> (tbl_data (db (env st))).
Proof.
  unfold cursor_execute, bind, network.
  destruct (outages (env st)) as [|[|] o]; cbn [env db db_execute];
    try discriminate;
    destruct (tbl_data (db (env st)) !! table) as [rows|];
    try discriminate; intros [= _ <-]; by exists rows.
Qed.

Lemma publish_point_returns_stored c x st st' :
  publish_point P c x st = (Ret tt, st') -> stored P (db (env st')) x.
Proof.
  intros E. unfold publish_point in E.
  apply bind_inv in E as (v & s0 & _ & E). cbv beta in E.
  apply bind_inv in E as (h & s1 & _ & E). cbv beta in E.
  apply bind_inv in E as ([] & s2 & _ & E). cbv beta in E.
  apply bind_inv in E as ([] & s3 & Edata & E). cbv beta in E.
  unfold insert_data in Edata.
  apply bind_inv in Edata as (rs & s3' & Ex & Er).
  injection Er as <-.
  apply execute_insert_data_returns in Ex as (rows & Hrows & Hd).
  assert (stored P (db (env s3')) x) as Hs.
  { exists (insert_data_row (topic_id_of P (topic x))
              (format_timestamp P (timestamp x)) v rows).
    split; [rewrite Hd; apply lookup_insert_eq|].
    apply existsb_after_insert. }
  eapply stored_grows; [|exact Hs].
  match type of E with
  | ?m s3' = _ =>
      assert (moves (on_db data_grows) m) as Hm
  end.
  { split_moves (on_db_refl data_grows data_grows_refl)
                (on_db_trans data_grows data_grows_trans)
      ltac:(first [ apply (on_db_execute P data_grows data_grows_refl
                             (data_grows_execute P))
                  | apply (on_db_with_self data_grows data_grows_refl) ]). }
  specialize (Hm s3'). by rewrite E in Hm.
Qed.

Lemma loop_returns_stored c l st st' :
  for_each l (publish_point P c) st = (Ret tt, st') ->
  forall x, x ∈ l -> stored P (db (env st')) x.
Proof.
  revert st. induction l as [|y l IH]; intros st E x Hx.
  - by apply elem_of_nil in Hx.
  - cbn [for_each] in E. apply bind_inv in E as ([] & st1 & Ey & El).
    apply elem_of_cons in Hx as [->|Hx]; [|by eapply IH].
    eapply stored_grows; [|by eapply publish_point_returns_stored].
    pose proof (moves_for_each _ (on_db_refl data_grows data_grows_refl)
                  (on_db_trans data_grows data_grows_trans) l _
                  (on_db_publish_point P data_grows data_grows_refl
                     data_grows_trans (data_grows_execute P) c) st1) as Hm.
    by rewrite El in Hm.
Qed.

(** X23: an acknowledged batch is in the tables.  If the call acknowledged
    the batch, every point of the batch has a row under its
    (topic_id, timestamp) key in its category table, and exactly one if
    the keys were unique before the call, however often the batch or parts
    of it were delivered before. *)
Theorem acknowledged_batch_is_stored l st :
  let st' := snd (publish_to_historian P l st) in
  acks (env st') = S (acks (env st)) ->
  forall x, x ∈ l ->
    stored P (db (env st')) x
    /\ (keys_unique (db (env st)) ->
        exists rows,
          tbl_data (db (env st')) !! table_of (source x) = Some rows
          /\ key_count (topic_id_of P (topic x))
               (format_timestamp P (timestamp x)) rows = 1%nat).
Proof.
  cbv zeta. intros Hack x Hx.
  assert (stored P (db (env (snd (publish_to_historian P l st)))) x) as Hs.
  { pose proof (publish_shape P l st) as Hs.
    pose proof (get_connection_same_acks st) as Ha.
    destruct (get_connection st) as [[conn|e] st1]; cbn [snd] in Ha.
    - cbv zeta in Hs.
      pose proof (loop_same_acks P (next_cursor (env st1)) l
                    (snd (conn_cursor conn st1))) as Hla.
      pose proof (loop_returns_stored (next_cursor (env st1)) l
                    (snd (conn_cursor conn st1))) as Hst.
      destruct (for_each l _ _) as [[[]|e] st3]; cbn [snd] in Hla;
        [|destruct e]; rewrite Hs in Hack |- *;
        unfold same_acks in *; cbn in *; try lia.
      by eapply Hst.
    - rewrite Hs in Hack. unfold same_acks in Ha.
      destruct e; cbn in *; lia. }
  split; [exact Hs|]. intros Hu.
  destruct Hs as (rows & Hrows & Hkey). exists rows. split; [done|].
  pose proof (on_db_publish P (keeps keys_unique)
                (fun d (H : keys_unique d) => H)
                (fun a b c (H1 : keeps keys_unique a b)
                     (H2 : keeps keys_unique b c) H => H2 (H1 H))
                (keys_unique_execute P) l st Hu _ _
                (topic_id_of P (topic x))
                (format_timestamp P (timestamp x)) Hrows) as Hle.
  destruct (key_count _ _ rows) as [|[|n]] eqn:Hn; [|done|lia].
  apply key_count_none in Hn. congruence.
Qed.

End Acknowledged.

Lemma acknowledged_batch_is_stored_witness :
  stored Demo.platform
    (db (env (snd (publish_to_historian Demo.platform
                     [Demo.ahu1_temp 100; Demo.ahu1_temp 101]
                     (Demo.started 200))))) (Demo.ahu1_temp 101)
  /\ (keys_unique (db (env (Demo.started 200))) ->
      exists rows,
        tbl_data
          (db (env (snd (publish_to_historian Demo.platform
                           [Demo.ahu1_temp 100; Demo.ahu1_temp 101]
                           (Demo.started 200)))))
        !! "device" = Some rows
        /\ key_count (Demo.digest "building/ahu1/temp") "101" rows = 1%nat).
Proof.
  apply (acknowledged_batch_is_stored Demo.platform
           [Demo.ahu1_temp 100; Demo.ahu1_temp 101] (Demo.started 200)).
  - vm_compute. reflexivity.
  - right. left.
Defined.

(** ** Bounds that are no timestamps *)

Section Bounds.
Context (P : Platform).

(** X24: a malformed bound is reported before the service is contacted.
    On a registered topic, a start that [parse_timestamp_string] rejects,
    or an end it rejects after a start that is absent or well formed, makes
    the query raise ValueError with nothing sent and nothing changed. *)
Theorem query_rejects_malformed_bound st topic topic_id start end_ agg_type
    agg_period skip count order :
  str_in (split_head topic) categories = true ->
  _topic_id_map (self st) !! strip_category (split_head topic) topic
  = Some topic_id ->
  match start, end_ with
  | Some s, Some e =>
      parse_timestamp_string P s = None \/ parse_timestamp_string P e = None
  | Some s, None => parse_timestamp_string P s = None
  | None, Some e => parse_timestamp_string P e = None
  | None, None => False
  end ->
  query_historian P topic start end_ agg_type agg_period skip count order st
  = (Raise ValueError, st).
Proof.
  intros Hcat Hmap Hbad. unfold query_historian.
  rewrite Hcat. cbn [negb]. unfold bind at 1, get_self at 1.
  rewrite Hmap.
  destruct start as [s|], end_ as [e|]; try done.
  - unfold bind at 1.
    destruct (parse_timestamp_string P s) as [t|]; [|reflexivity].
    destruct Hbad as [|He]; [done|].
    cbn [ret]. unfold bind at 1. by rewrite He.
  - unfold bind at 1. by rewrite Hbad.
  - unfold bind at 1. cbn [get_aware_utc_now]. unfold bind at 1.
    by rewrite Hbad.
Qed.

End Bounds.

Lemma query_rejects_malformed_bound_witness :
  query_historian Demo.platform "device/building/ahu1/temp" (Some "150")
    (Some "tomorrow") None None 0 (Some 1%Z) "FIRST_TO_LAST"
    (Demo.started 200)
  = (Raise ValueError, Demo.started 200).
Proof.
  apply (query_rejects_malformed_bound Demo.platform (Demo.started 200)
           "device/building/ahu1/temp" (Demo.digest "building/ahu1/temp")
           (Some "150") (Some "tomorrow")).
  - reflexivity.
  - vm_compute. reflexivity.
  - right. reflexivity.
Defined.
